(** * Contact book: a shallow embedding of [contact_book.py]

    Python [str] values are modelled as Stdlib [string]s whose characters
    are read as the Unicode code points U+0000 .. U+00FF (Latin-1): each
    [ascii] value [c] stands for the character [chr(nat_of_ascii c)].
    Python [dict]s (insertion ordered) are association lists whose keys
    are pairwise distinct; writing to a key updates its entry in place,
    writing a new key appends it. *)

From Stdlib Require Import String Ascii List Arith Bool Lia.
Import ListNotations.
Open Scope string_scope.
Open Scope list_scope.
Open Scope nat_scope.
Set Warnings "-register-all,-abstract-large-number".

(** ** Characters and Python string methods *)

Definition code (c : ascii) : nat := nat_of_ascii c.

(** [str.lower] on one Latin-1 character: A-Z and U+00C0 .. U+00DE
    except U+00D7 (multiplication sign) map to the code point + 32. *)
Definition lower_char (c : ascii) : ascii :=
  let n := code c in
  if ((65 <=? n) && (n <=? 90)) || ((192 <=? n) && (n <=? 222) && negb (n =? 215))
  then ascii_of_nat (n + 32) else c.

Fixpoint lower (s : string) : string :=
  match s with
  | EmptyString => EmptyString
  | String c r => String (lower_char c) (lower r)
  end.

(** [str.isdigit] on one Latin-1 character: the ASCII digits and the
    superscript digits U+00B2, U+00B3, U+00B9 (Numeric_Type=Digit). *)
Definition isdigit (c : ascii) : bool :=
  let n := code c in
  ((48 <=? n) && (n <=? 57)) || (n =? 178) || (n =? 179) || (n =? 185).

(** [s.replace(c, "")] *)
Fixpoint replace_del (c : ascii) (s : string) : string :=
  match s with
  | EmptyString => EmptyString
  | String d r => if Ascii.eqb d c then replace_del c r else String d (replace_del c r)
  end.

(** Python's [a in b] for strings: [a] occurs as a substring of [b]. *)
Fixpoint str_in (a b : string) : bool :=
  if prefix a b then true
  else match b with
       | EmptyString => false
       | String _ r => str_in a r
       end.

(** ** [ContactBook.validate_phone] *)

(** [sum(1 for c in clean_phone if c.isdigit())] *)
Fixpoint count_digits (s : string) : nat :=
  match s with
  | EmptyString => 0
  | String c r => (if isdigit c then 1 else 0) + count_digits r
  end.

Definition clean_phone (phone_number : string) : string :=
  replace_del ")" (replace_del "(" (replace_del " " (replace_del "-" phone_number))).

Definition validate_phone (phone_number : string) : bool :=
  10 <=? count_digits (clean_phone phone_number).

(** The notion of the specification: decimal digits 0-9. *)
Definition is_decimal_digit (c : ascii) : bool :=
  (48 <=? code c) && (code c <=? 57).

Fixpoint count_decimal (s : string) : nat :=
  match s with
  | EmptyString => 0
  | String c r => (if is_decimal_digit c then 1 else 0) + count_decimal r
  end.

Fixpoint all_ascii (s : string) : bool :=
  match s with
  | EmptyString => true
  | String c r => (code c <? 128) && all_ascii r
  end.

(** ** Contacts and the store *)

Record contact := mkContact {
  phone : string;
  email : string;
  address : string;
  date_added : string
}.

(** [self.contacts]: name -> contact, in insertion order. *)
Definition store := list (string * contact).

(** [d[k] = v] on an insertion-ordered dict. *)
Fixpoint dict_set {V : Type} (k : string) (v : V) (d : list (string * V))
  : list (string * V) :=
  match d with
  | [] => [(k, v)]
  | (k', v') :: r => if String.eqb k' k then (k', v) :: r else (k', v') :: dict_set k v r
  end.

Fixpoint dict_get {V : Type} (k : string) (d : list (string * V)) : option V :=
  match d with
  | [] => None
  | (k', v') :: r => if String.eqb k' k then Some v' else dict_get k r
  end.

(** [del d[k]] *)
Fixpoint dict_del {V : Type} (k : string) (d : list (string * V)) : list (string * V) :=
  match d with
  | [] => []
  | (k', v') :: r => if String.eqb k' k then r else (k', v') :: dict_del k r
  end.

(** [dict(pairs)]: a later duplicate key overwrites the value in place. *)
Definition dict_of_pairs {V : Type} (pairs : list (string * V)) : list (string * V) :=
  fold_left (fun d '(k, v) => dict_set k v d) pairs [].

(** ** JSON values, as returned by [json.load]

    Numbers and the constants NaN/Infinity are kept as their source text:
    no property below depends on numeric values. *)
Inductive json :=
| JNull
| JBool (b : bool)
| JNum (lexeme : string)
| JStr (s : string)
| JArr (items : list json)
| JObj (members : list (string * json)).

Definition dq : ascii := ascii_of_nat 34.
Definition bs : ascii := ascii_of_nat 92.
Definition nl : ascii := ascii_of_nat 10.

(** *** [json.dump(self.contacts, f, indent=4)] *)

Definition hex_digit (n : nat) : ascii :=
  if n <? 10 then ascii_of_nat (48 + n) else ascii_of_nat (87 + n).

(** [encode_basestring_ascii] (ensure_ascii=True), one character. *)
Definition enc_char (c : ascii) : string :=
  let n := code c in
  if n =? 92 then String bs (String bs EmptyString)
  else if n =? 34 then String bs (String dq EmptyString)
  else if n =? 8 then String bs "b"
  else if n =? 12 then String bs "f"
  else if n =? 10 then String bs "n"
  else if n =? 13 then String bs "r"
  else if n =? 9 then String bs "t"
  else if (n <? 32) || (127 <=? n)
  then String bs ("u00" ++ String (hex_digit (n / 16)) (String (hex_digit (n mod 16)) EmptyString))
  else String c EmptyString.

Fixpoint enc_body (s : string) : string :=
  match s with
  | EmptyString => EmptyString
  | String c r => enc_char c ++ enc_body r
  end.

Definition encode_str (s : string) : string := String dq (enc_body s ++ String dq EmptyString).

Fixpoint spaces (n : nat) : string :=
  match n with 0 => EmptyString | S m => String " " (spaces m) end.

(** The newline-and-indent string at nesting [level] with [indent=4]. *)
Definition nli (level : nat) : string := String nl (spaces (4 * level)).

Definition dump_contact (c : contact) : string :=
  "{" ++ nli 2 ++
  encode_str "phone" ++ ": " ++ encode_str (phone c) ++ "," ++ nli 2 ++
  encode_str "email" ++ ": " ++ encode_str (email c) ++ "," ++ nli 2 ++
  encode_str "address" ++ ": " ++ encode_str (address c) ++ "," ++ nli 2 ++
  encode_str "date_added" ++ ": " ++ encode_str (date_added c) ++ nli 1 ++ "}".

Definition dump_entry (e : string * contact) : string :=
  encode_str (fst e) ++ ": " ++ dump_contact (snd e).

Fixpoint dump_entries (s : store) : string :=
  match s with
  | [] => EmptyString
  | [e] => dump_entry e
  | e :: r => dump_entry e ++ "," ++ nli 1 ++ dump_entries r
  end.

Definition dump_store (s : store) : string :=
  match s with
  | [] => "{}"
  | _ => "{" ++ nli 1 ++ dump_entries s ++ nli 0 ++ "}"
  end.

(** The Python object that a store is: a dict of dicts of strings. *)
Definition json_of_contact (c : contact) : json :=
  JObj [("phone", JStr (phone c)); ("email", JStr (email c));
        ("address", JStr (address c)); ("date_added", JStr (date_added c))].

Definition json_of_store (s : store) : json :=
  JObj (map (fun e => (fst e, json_of_contact (snd e))) s).

(** *** [json.load(f)] (the C scanner of CPython's [json], strict mode) *)

(** The exceptions other than [JSONDecodeError] that the scanner raises:
    [ValueError] when an integer literal has more digits than
    [sys.get_int_max_str_digits()] (4300 by default), and [RecursionError]
    when arrays and objects are nested deeper than the interpreter's
    recursion budget allows. *)
Inductive pyexn :=
| IntTooLong
| TooDeep.

(** A parse either succeeds with the rest of the input, fails with a
    [JSONDecodeError], raises one of the exceptions above, or meets a
    [\uXXXX] escape naming a code point above U+00FF, which lies outside
    the Latin-1 character model. *)
Inductive presult (A : Type) :=
| POk (a : A) (rest : string)
| PErr
| PRaise (e : pyexn)
| POut.
Arguments POk {A}. Arguments PErr {A}. Arguments PRaise {A}. Arguments POut {A}.

Definition pcons (c : ascii) (p : presult string) : presult string :=
  match p with
  | POk s r => POk (String c s) r
  | PErr => PErr
  | PRaise e => PRaise e
  | POut => POut
  end.

Definition is_ws (c : ascii) : bool :=
  let n := code c in (n =? 32) || (n =? 9) || (n =? 10) || (n =? 13).

(** [WHITESPACE.match(s, idx).end()] *)
Fixpoint skip_ws (s : string) : string :=
  match s with
  | EmptyString => EmptyString
  | String c r => if is_ws c then skip_ws r else s
  end.

Definition hex_val (c : ascii) : option nat :=
  let n := code c in
  if (48 <=? n) && (n <=? 57) then Some (n - 48)
  else if (97 <=? n) && (n <=? 102) then Some (n - 87)
  else if (65 <=? n) && (n <=? 70) then Some (n - 55)
  else None.

Definition hex4 (a b c d : ascii) : option nat :=
  match hex_val a, hex_val b, hex_val c, hex_val d with
  | Some x, Some y, Some z, Some w => Some (((x * 16 + y) * 16 + z) * 16 + w)
  | _, _, _, _ => None
  end.

(** The one-character escapes: a backslash followed by a double quote,
    a backslash, a slash, or one of b f n r t. *)
Definition simple_escape (e : ascii) : option ascii :=
  let n := code e in
  if n =? 34 then Some dq
  else if n =? 92 then Some bs
  else if n =? 47 then Some "/"%char
  else if n =? 98 then Some (ascii_of_nat 8)
  else if n =? 102 then Some (ascii_of_nat 12)
  else if n =? 110 then Some (ascii_of_nat 10)
  else if n =? 114 then Some (ascii_of_nat 13)
  else if n =? 116 then Some (ascii_of_nat 9)
  else None.

(** [scanstring(s, end, strict=True)]: [s] starts after the opening quote. *)
Fixpoint scan_str (s : string) : presult string :=
  match s with
  | EmptyString => PErr
  | String c r =>
      if code c =? 34 then POk EmptyString r
      else if code c =? 92 then
        match r with
        | EmptyString => PErr
        | String e r' =>
            if code e =? 117 then
              match r' with
              | String h1 (String h2 (String h3 (String h4 r''))) =>
                  match hex4 h1 h2 h3 h4 with
                  | Some v => if v <=? 255 then pcons (ascii_of_nat v) (scan_str r'') else POut
                  | None => PErr
                  end
              | _ => PErr
              end
            else match simple_escape e with
                 | Some d => pcons d (scan_str r')
                 | None => PErr
                 end
        end
      else if code c <? 32 then PErr
      else pcons c (scan_str r)
  end.

Definition is_dec (c : ascii) : bool := is_decimal_digit c.

Fixpoint digits_span (s : string) : string * string :=
  match s with
  | String c r => if is_dec c then let (ds, r') := digits_span r in (String c ds, r') else (EmptyString, s)
  | EmptyString => (EmptyString, EmptyString)
  end.

(** [_match_number_unicode]: an optional minus, then 0 or a nonzero digit
    followed by digits, then optionally a dot and at least one digit, then
    optionally e or E, an optional sign and at least one digit (an exponent
    without digits is not consumed). Returns the lexeme and the rest. *)
Definition lex_number (s : string) : option (string * string) :=
  let '(sign, s1) := match s with
                     | String c r => if code c =? 45 then ("-", r) else (EmptyString, s)
                     | EmptyString => (EmptyString, s)
                     end in
  let int_part :=
    match s1 with
    | String c r =>
        if code c =? 48 then Some ("0", r)
        else if (49 <=? code c) && (code c <=? 57)
             then let (ds, r') := digits_span r in Some (String c ds, r')
        else None
    | EmptyString => None
    end in
  match int_part with
  | None => None
  | Some (ip, r1) =>
      let '(fp, r2) :=
        match r1 with
        | String c (String d r) =>
            if (code c =? 46) && is_dec d
            then let (ds, r') := digits_span r in (String c (String d ds), r')
            else (EmptyString, r1)
        | _ => (EmptyString, r1)
        end in
      let '(ep, r3) :=
        match r2 with
        | String e r =>
            if (code e =? 101) || (code e =? 69) then
              let '(sg, r') := match r with
                               | String c r'' => if (code c =? 45) || (code c =? 43)
                                                 then (String c EmptyString, r'') else (EmptyString, r)
                               | EmptyString => (EmptyString, r)
                               end in
              let (ds, r'') := digits_span r' in
              match ds with
              | EmptyString => (EmptyString, r2)
              | _ => (String e (append sg ds), r'')
              end
            else (EmptyString, r2)
        | EmptyString => (EmptyString, r2)
        end in
      Some (append sign (append ip (append fp ep)), r3)
  end.

Definition drop (n : nat) (s : string) : string := substring n (String.length s - n) s.

Definition jstr (p : presult string) : presult json :=
  match p with POk s r => POk (JStr s) r | PErr => PErr | PRaise e => PRaise e | POut => POut end.

(** [sys.get_int_max_str_digits()] at its default. *)
Definition int_max_str_digits : nat := 4300.

(** [PyLong_FromString] refuses the lexeme: it is an integer (no fraction
    and no exponent) with more than [int_max_str_digits] digits, the sign
    not counted. Fractions and exponents go to [float], which has no such
    limit. *)
Definition int_too_long (lx : string) : bool :=
  let body := match lx with
              | String c r => if code c =? 45 then r else lx
              | EmptyString => lx
              end in
  forallb is_dec (list_ascii_of_string body) && (int_max_str_digits <? String.length body).

(** [scan_once], [JSONObject] and [JSONArray], with a fuel argument.
    [depth] is the number of arrays and objects that may still be opened:
    the scanner calls [Py_EnterRecursiveCall] on each [{] and [[], which
    raises [RecursionError] once the interpreter's recursion budget is
    spent. *)
Fixpoint pvalue (fuel depth : nat) (s : string) : presult json :=
  match fuel with
  | 0 => PErr
  | S f =>
    match s with
    | EmptyString => PErr
    | String c r =>
      if code c =? 34 then jstr (scan_str r)
      else if code c =? 123 then
        match depth with
        | 0 => PRaise TooDeep
        | S dp =>
          match skip_ws r with
          | String d r1 =>
              if code d =? 125 then POk (JObj []) r1
              else if code d =? 34 then pmembers f dp r1 []
              else PErr
          | EmptyString => PErr
          end
        end
      else if code c =? 91 then
        match depth with
        | 0 => PRaise TooDeep
        | S dp =>
          match skip_ws r with
          | String d r1 => if code d =? 93 then POk (JArr []) r1 else pelems f dp (String d r1) []
          | EmptyString => PErr
          end
        end
      else if prefix "null" s then POk JNull (drop 4 s)
      else if prefix "true" s then POk (JBool true) (drop 4 s)
      else if prefix "false" s then POk (JBool false) (drop 5 s)
      else if prefix "NaN" s then POk (JNum "NaN") (drop 3 s)
      else if prefix "Infinity" s then POk (JNum "Infinity") (drop 8 s)
      else if prefix "-Infinity" s then POk (JNum "-Infinity") (drop 9 s)
      else match lex_number s with
           | Some (lx, rest) => if int_too_long lx then PRaise IntTooLong else POk (JNum lx) rest
           | None => PErr
           end
    end
  end
(** Members of an object; [s] starts after the opening quote of a key. *)
with pmembers (fuel depth : nat) (s : string) (acc : list (string * json)) : presult json :=
  match fuel with
  | 0 => PErr
  | S f =>
    match scan_str s with
    | POk k r1 =>
      match skip_ws r1 with
      | String c r2 =>
        if code c =? 58 then
          match pvalue f depth (skip_ws r2) with
          | POk v r3 =>
            let acc' := acc ++ [(k, v)] in
            match skip_ws r3 with
            | String d r4 =>
              if code d =? 125 then POk (JObj (dict_of_pairs acc')) r4
              else if code d =? 44 then
                match skip_ws r4 with
                | String q r5 => if code q =? 34 then pmembers f depth r5 acc' else PErr
                | EmptyString => PErr
                end
              else PErr
            | EmptyString => PErr
            end
          | PErr => PErr
          | PRaise e => PRaise e
          | POut => POut
          end
        else PErr
      | EmptyString => PErr
      end
    | PErr => PErr
    | PRaise e => PRaise e
    | POut => POut
    end
  end
(** Items of an array; [s] starts at an item. *)
with pelems (fuel depth : nat) (s : string) (acc : list json) : presult json :=
  match fuel with
  | 0 => PErr
  | S f =>
    match pvalue f depth s with
    | POk v r1 =>
      match skip_ws r1 with
      | String d r2 =>
        if code d =? 93 then POk (JArr (acc ++ [v])) r2
        else if code d =? 44 then pelems f depth (skip_ws r2) (acc ++ [v])
        else PErr
      | EmptyString => PErr
      end
    | PErr => PErr
    | PRaise e => PRaise e
    | POut => POut
    end
  end.

Inductive decoded :=
| DOk (v : json)
| DErr
| DRaise (e : pyexn)
| DOut.

(** [json.loads(text)]: leading and trailing whitespace, then the value,
    then nothing else ("Extra data" otherwise). Every two nested calls
    consume at least one character, so the fuel [2 * length + 2] never
    runs out before the input does. [max_depth] is the number of arrays
    and objects the scanner may have open at once before [RecursionError]:
    the recursion limit less what the call stack already uses when
    [json.load] runs (994 when [json.loads] is called from a shallow stack
    under CPython 3.11 with the default limit of 1000; other versions and
    call sites differ), so it is left as a parameter. *)
Definition json_loads (max_depth : nat) (text : string) : decoded :=
  match pvalue (2 * String.length text + 2) max_depth (skip_ws text) with
  | POk v r => match skip_ws r with EmptyString => DOk v | _ => DErr end
  | PErr => DErr
  | PRaise e => DRaise e
  | POut => DOut
  end.

(** A recursion budget of the size CPython 3.11 leaves to [json.loads]
    called from a shallow stack; the example files below nest at most two
    levels deep, so every budget of at least 2 decodes them alike. *)
Definition sample_depth : nat := 994.

(** A file holding a record-of-records: the store it denotes. *)
Definition contact_of_json (v : json) : option contact :=
  match v with
  | JObj fs =>
      if length fs =? 4 then
        match dict_get "phone" fs, dict_get "email" fs, dict_get "address" fs,
              dict_get "date_added" fs with
        | Some (JStr p), Some (JStr e), Some (JStr a), Some (JStr d) => Some (mkContact p e a d)
        | _, _, _, _ => None
        end
      else None
  | _ => None
  end.

Fixpoint store_of_members (l : list (string * json)) : option store :=
  match l with
  | [] => Some []
  | (k, v) :: r =>
      match contact_of_json v, store_of_members r with
      | Some c, Some s => Some ((k, c) :: s)
      | _, _ => None
      end
  end.

Definition store_of_json (v : json) : option store :=
  match v with JObj l => store_of_members l | _ => None end.

(** ** Timestamps: [datetime.now().strftime("%Y-%m-%d %H:%M:%S")] *)

Record datetime := mkDatetime {
  year : nat; month : nat; day : nat; hour : nat; minute : nat; second : nat
}.

Definition valid_datetime (d : datetime) : Prop :=
  1 <= year d <= 9999 /\ 1 <= month d <= 12 /\ 1 <= day d <= 31 /\
  hour d < 24 /\ minute d < 60 /\ second d < 60.

Definition digit (n : nat) : ascii := ascii_of_nat (48 + n).

Fixpoint dec_aux (fuel n : nat) (acc : string) : string :=
  match fuel with
  | 0 => acc
  | S f =>
      let acc' := String (digit (n mod 10)) acc in
      if n <? 10 then acc' else dec_aux f (n / 10) acc'
  end.

(** [%Y]: the year in decimal (no padding; a [datetime] year is below 10000). *)
Definition dec (n : nat) : string := dec_aux 5 n EmptyString.

(** [%m %d %H %M %S]: two zero-padded digits. *)
Definition pad2 (n : nat) : string :=
  String (digit (n / 10)) (String (digit (n mod 10)) EmptyString).

Definition strftime_ts (d : datetime) : string :=
  dec (year d) ++ "-" ++ pad2 (month d) ++ "-" ++ pad2 (day d) ++ " " ++
  pad2 (hour d) ++ ":" ++ pad2 (minute d) ++ ":" ++ pad2 (second d).

(** The shape YYYY-MM-DD HH:MM:SS: [d] in the template stands for a
    decimal digit, every other character for itself. *)
Fixpoint matches_template (t s : string) : bool :=
  match t, s with
  | EmptyString, EmptyString => true
  | String a t', String c s' =>
      (if Ascii.eqb a "d"%char then is_dec c else Ascii.eqb a c) && matches_template t' s'
  | _, _ => false
  end.

Definition is_timestamp (s : string) : bool := matches_template "dddd-dd-dd dd:dd:dd" s.

(** ** The [ContactBook] object and its effects *)

Inductive event :=
| Printed (msg : string)
| Wrote (contents : string).

(** [self.contacts], the backing file's contents, and the trace of
    output lines and file writes. *)
Record book := mkBook {
  contacts : store;
  file : option string;
  log : list event
}.

Definition print (msg : string) (b : book) : book :=
  mkBook (contacts b) (file b) (log b ++ [Printed msg]).

Definition set_contacts (cs : store) (b : book) : book :=
  mkBook cs (file b) (log b).

(** [save_contacts]: overwrite the file with the dump of the mapping. *)
Definition save_contacts (b : book) : book :=
  mkBook (contacts b) (Some (dump_store (contacts b)))
         (log b ++ [Wrote (dump_store (contacts b)); Printed "Contacts saved successfully!"]).

Definition load_notice : string :=
  "Error reading contacts file. Starting with empty contact list.".

(** [load_contacts]: [None] for a missing file. The first component is
    [None] when no value is returned: [json.load] raises [ValueError] or
    [RecursionError], which [except json.JSONDecodeError] does not catch,
    so the exception leaves [load_contacts]; or the text lies outside the
    Latin-1 model. *)
Definition load_contacts (max_depth : nat) (f : option string) : option json * list event :=
  match f with
  | None => (Some (JObj []), [])
  | Some text =>
      match json_loads max_depth text with
      | DOk v => (Some v, [])
      | DErr => (Some (JObj []), [Printed load_notice])
      | DRaise _ => (None, [])
      | DOut => (None, [])
      end
  end.

Definition quoted (name : string) : string := "'" ++ name ++ "'".

(** [add_contact]; [now] is the value of [datetime.now()]. *)
Definition add_contact (now : datetime) (b : book)
    (name phone_number email address : string) : bool * book :=
  if existsb (String.eqb (lower name)) (map (fun e => lower (fst e)) (contacts b)) then
    (false, print ("Contact " ++ quoted name ++ " already exists!") b)
  else if negb (validate_phone phone_number) then
    (false, print "Invalid phone number format!" b)
  else
    let b1 := set_contacts
                (dict_set name (mkContact phone_number email address (strftime_ts now))
                   (contacts b)) b in
    let b2 := save_contacts b1 in
    (true, print ("Contact " ++ quoted name ++ " added successfully!") b2).

(** [for key in self.contacts: if key.lower() == name.lower(): ... break] *)
Fixpoint find_key (name : string) (cs : store) : option string :=
  match cs with
  | [] => None
  | (k, _) :: r => if String.eqb (lower k) (lower name) then Some k else find_key name r
  end.

(** Truthiness of [None] or a [str]. *)
Definition truthy (o : option string) : bool :=
  match o with Some s => negb (String.eqb s EmptyString) | None => false end.

Definition set_phone (p : string) (c : contact) : contact :=
  mkContact p (email c) (address c) (date_added c).
Definition set_email (e : string) (c : contact) : contact :=
  mkContact (phone c) e (address c) (date_added c).
Definition set_address (a : string) (c : contact) : contact :=
  mkContact (phone c) (email c) a (date_added c).

(** [self.contacts[k][field] = value]: mutate the record stored at [k]. *)
Definition update_at (k : string) (f : contact -> contact) (cs : store) : store :=
  match dict_get k cs with
  | Some c => dict_set k (f c) cs
  | None => cs
  end.

Definition edit_contact (b : book) (name : string)
    (phone_number email address : option string) : bool * book :=
  match find_key name (contacts b) with
  | None => (false, print ("Contact " ++ quoted name ++ " not found!") b)
  | Some k =>
      let after_phone :=
        match phone_number with
        | Some p =>
            if truthy phone_number then
              if negb (validate_phone p) then None
              else Some (update_at k (set_phone p) (contacts b))
            else Some (contacts b)
        | None => Some (contacts b)
        end in
      match after_phone with
      | None => (false, print "Invalid phone number format!" b)
      | Some cs1 =>
          let cs2 := match email with
                     | Some e => if truthy email then update_at k (set_email e) cs1 else cs1
                     | None => cs1
                     end in
          let cs3 := match address with
                     | Some a => if truthy address then update_at k (set_address a) cs2 else cs2
                     | None => cs2
                     end in
          let b1 := save_contacts (set_contacts cs3 b) in
          (true, print ("Contact " ++ quoted k ++ " updated successfully!") b1)
      end
  end.

(** [search_contact]: the loop over [self.contacts.items()]. *)
Fixpoint search_contact (cs : store) (query : string) : list (string * contact) :=
  match cs with
  | [] => []
  | (name, details) :: r =>
      if str_in (lower query) (lower name) || str_in query (phone details)
         || str_in (lower query) (lower (email details))
      then (name, details) :: search_contact r query
      else search_contact r query
  end.

Definition delete_contact (b : book) (name : string) : bool * book :=
  match find_key name (contacts b) with
  | None => (false, print ("Contact " ++ quoted name ++ " not found!") b)
  | Some k =>
      let b1 := save_contacts (set_contacts (dict_del k (contacts b)) b) in
      (true, print ("Contact " ++ quoted k ++ " deleted successfully!") b1)
  end.

Fixpoint rep (n : nat) (c : ascii) : string :=
  match n with 0 => EmptyString | S m => String c (rep m c) end.

(** [f"{s:<n}"]: pad on the right to width [n], never truncate. *)
Definition ljust (n : nat) (s : string) : string := s ++ rep (n - String.length s) " ".

Definition print_all (msgs : list string) (b : book) : book :=
  fold_left (fun b m => print m b) msgs b.

Definition display_contact (b : book) (name : string) : bool * book :=
  match find_key name (contacts b) with
  | None => (false, print ("Contact " ++ quoted name ++ " not found!") b)
  | Some k =>
      match dict_get k (contacts b) with
      | Some details =>
          (true, print_all [String nl (rep 50 "=");
                            ("Name: " ++ k)%string;
                            ("Phone: " ++ phone details)%string;
                            ("Email: " ++ email details)%string;
                            ("Address: " ++ address details)%string;
                            ("Date Added: " ++ date_added details)%string;
                            (rep 50 "=" ++ String nl EmptyString)%string] b)
      | None => (false, b)
      end
  end.

Definition list_all_contacts (b : book) : book :=
  match contacts b with
  | [] => print "No contacts found!" b
  | cs =>
      let header := [String nl (rep 70 "=");
                     (ljust 20 "Name" ++ " " ++ ljust 15 "Phone" ++ " " ++ ljust 25 "Email")%string;
                     rep 70 "="] in
      let rows := map (fun e => (ljust 20 (fst e) ++ " " ++ ljust 15 (phone (snd e)) ++ " "
                                ++ ljust 25 (email (snd e)))%string) cs in
      print_all (header ++ rows ++ [(rep 70 "=" ++ String nl EmptyString)%string]) b
  end.

(** ** The store operations as one step relation *)

Inductive op :=
| OpAdd (now : datetime) (name phone_number email address : string)
| OpEdit (name : string) (phone_number email address : option string)
| OpDelete (name : string)
| OpSearch (query : string)
| OpDisplay (name : string)
| OpList.

Definition run_op (b : book) (o : op) : book :=
  match o with
  | OpAdd now n p e a => snd (add_contact now b n p e a)
  | OpEdit n p e a => snd (edit_contact b n p e a)
  | OpDelete n => snd (delete_contact b n)
  | OpSearch q => let _ := search_contact (contacts b) q in b
  | OpDisplay n => snd (display_contact b n)
  | OpList => list_all_contacts b
  end.

(** No two keys are equal under [str.lower]. *)
Definition ci_unique (cs : store) : Prop := NoDup (map (fun e => lower (fst e)) cs).

(** ** Creating the book: [ContactBook.__init__] *)

(** [ContactBook(filename)]: the mapping is what [load_contacts] returns.
    The result is [None] when [load_contacts] raises, or when the value
    is not a record-of-records (or lies outside the Latin-1 model): the
    operations above are modelled on stores only. *)
Definition init_book (max_depth : nat) (f : option string) : option book :=
  match load_contacts max_depth f with
  | (Some v, ev) =>
      match store_of_json v with
      | Some s => Some (mkBook s f ev)
      | None => None
      end
  | (None, _) => None
  end.

(** ** The interactive shell: [display_menu] and [main] *)

(** [str.isspace] on one Latin-1 character. *)
Definition isspace (c : ascii) : bool :=
  let n := code c in
  ((9 <=? n) && (n <=? 13)) || ((28 <=? n) && (n <=? 32)) || (n =? 133) || (n =? 160).

Fixpoint lstrip (s : string) : string :=
  match s with
  | EmptyString => EmptyString
  | String c r => if isspace c then lstrip r else s
  end.

Fixpoint rstrip (s : string) : string :=
  match s with
  | EmptyString => EmptyString
  | String c r =>
      match rstrip r with
      | EmptyString => if isspace c then EmptyString else String c EmptyString
      | r' => String c r'
      end
  end.

(** [str.strip()] *)
Definition strip (s : string) : string := rstrip (lstrip s).

(** [str(n)] for a natural number. *)
Definition str_of_nat (n : nat) : string := dec_aux (S n) n EmptyString.

Definition menu_lines : list string :=
  [(String nl EmptyString ++ rep 50 "=")%string;
   "        CONTACT BOOK APPLICATION";
   rep 50 "=";
   "1. Add a new contact";
   "2. Search for a contact";
   "3. Edit a contact";
   "4. Delete a contact";
   "5. Display a specific contact";
   "6. List all contacts";
   "7. Exit";
   rep 50 "="].

Definition display_menu (b : book) : book := print_all menu_lines b.

(** The lines [main] prints for the results of a search. *)
Definition search_report (query : string) (results : list (string * contact)) : list string :=
  match results with
  | [] => [("No contacts found matching " ++ quoted query ++ "!")%string]
  | _ =>
      [String nl (rep 70 "=");
       ("Found " ++ str_of_nat (length results) ++ " result(s):")%string;
       rep 70 "="]
      ++ flat_map (fun r => [String nl ("Name: " ++ fst r);
                             ("Phone: " ++ phone (snd r))%string;
                             ("Email: " ++ email (snd r))%string;
                             ("Address: " ++ address (snd r))%string]) results
      ++ [(rep 70 "=" ++ String nl EmptyString)%string]
  end.

(** [phone or None] for a [str]. *)
Definition or_none (s : string) : option string :=
  if String.eqb s EmptyString then None else Some s.

(** How a run of [main] ends: choice 7, or [input()] meeting the end of
    its input, which raises [EOFError] and ends the program. *)
Inductive session :=
| Exited (b : book)
| EndOfInput (b : book).

Definition session_book (s : session) : book :=
  match s with Exited b => b | EndOfInput b => b end.

(** The [while True] loop of [main]. [inputs] are the lines that the
    successive [input()] calls return; the text of their prompts, written
    to standard output without a newline, is not recorded in the log.
    [clock t] is the value of [datetime.now()] during iteration [t]. *)
Fixpoint main_loop (clock : nat -> datetime) (t : nat) (b : book) (inputs : list string)
  {struct inputs} : session :=
  let b0 := display_menu b in
  match inputs with
  | [] => EndOfInput b0
  | line :: ins =>
    let choice := strip line in
    if String.eqb choice "1" then
      match ins with
      | n :: p :: e :: a :: rest =>
          main_loop clock (S t)
            (snd (add_contact (clock t) b0 (strip n) (strip p) (strip e) (strip a))) rest
      | _ => EndOfInput b0
      end
    else if String.eqb choice "2" then
      match ins with
      | q :: rest =>
          let query := strip q in
          main_loop clock (S t)
            (print_all (search_report query (search_contact (contacts b0) query)) b0) rest
      | [] => EndOfInput b0
      end
    else if String.eqb choice "3" then
      match ins with
      | n :: ins' =>
          let b1 := print "Leave fields empty to skip editing" b0 in
          match ins' with
          | p :: e :: a :: rest =>
              main_loop clock (S t)
                (snd (edit_contact b1 (strip n) (or_none (strip p)) (or_none (strip e))
                        (or_none (strip a)))) rest
          | _ => EndOfInput b1
          end
      | [] => EndOfInput b0
      end
    else if String.eqb choice "4" then
      match ins with
      | n :: c :: rest =>
          let b1 := if String.eqb (lower (strip c)) "yes"
                    then snd (delete_contact b0 (strip n))
                    else print "Deletion cancelled." b0 in
          main_loop clock (S t) b1 rest
      | _ => EndOfInput b0
      end
    else if String.eqb choice "5" then
      match ins with
      | n :: rest => main_loop clock (S t) (snd (display_contact b0 (strip n))) rest
      | [] => EndOfInput b0
      end
    else if String.eqb choice "6" then
      main_loop clock (S t) (list_all_contacts b0) ins
    else if String.eqb choice "7" then
      Exited (print "Thank you for using Contact Book! Goodbye!" b0)
    else
      main_loop clock (S t) (print "Invalid choice! Please try again." b0) ins
  end.

(** [main()]: [ContactBook()] on the backing file, then the loop. *)
Definition main (clock : nat -> datetime) (max_depth : nat) (f : option string)
    (inputs : list string) : option session :=
  option_map (fun b => main_loop clock 0 b inputs) (init_book max_depth f).

(** * Properties *)

(** ** Phone validation *)

Lemma count_digits_replace_del (c : ascii) (s : string) :
  isdigit c = false -> count_digits (replace_del c s) = count_digits s.
Proof.
  intros Hc. induction s as [|d r IH]; simpl; [reflexivity|].
  destruct (Ascii.eqb d c) eqn:E.
  - apply Ascii.eqb_eq in E; subst d. rewrite Hc. exact IH.
  - simpl. rewrite IH. reflexivity.
Qed.

Lemma count_digits_clean (p : string) : count_digits (clean_phone p) = count_digits p.
Proof.
  unfold clean_phone.
  repeat rewrite count_digits_replace_del by reflexivity. reflexivity.
Qed.

Lemma isdigit_ascii (c : ascii) : code c < 128 -> isdigit c = is_decimal_digit c.
Proof.
  intros H. unfold isdigit, is_decimal_digit.
  destruct ((48 <=? code c) && (code c <=? 57)); [reflexivity|].
  simpl. repeat match goal with |- context [?a =? ?b] =>
    let E := fresh in destruct (Nat.eqb_spec a b) as [E|E]; [lia|] end.
  reflexivity.
Qed.

Lemma count_digits_ascii (s : string) :
  all_ascii s = true -> count_digits s = count_decimal s.
Proof.
  induction s as [|c r IH]; simpl; [reflexivity|].
  intros H. apply andb_true_iff in H as [H1 H2].
  apply Nat.ltb_lt in H1. rewrite isdigit_ascii by exact H1. rewrite IH by exact H2.
  reflexivity.
Qed.

Lemma all_ascii_replace_del (c : ascii) (s : string) :
  all_ascii s = true -> all_ascii (replace_del c s) = true.
Proof.
  induction s as [|d r IH]; simpl; [reflexivity|].
  intros H. apply andb_true_iff in H as [H1 H2].
  destruct (Ascii.eqb d c); simpl; [auto|]. rewrite H1. auto.
Qed.

Definition superscript_two : ascii := ascii_of_nat 178.

(** C1 (counterexample). Ten copies of U+00B2 (superscript two): no
    decimal digit at all, yet [validate_phone] accepts the string, since
    [str.isdigit] holds for superscript digits. *)
Lemma validate_phone_superscript_counterexample :
  validate_phone (rep 10 superscript_two) = true /\
  count_decimal (clean_phone (rep 10 superscript_two)) = 0 /\
  ~ (forall p, validate_phone p = true <-> 10 <= count_decimal (clean_phone p)).
Proof.
  split; [vm_compute; reflexivity|]. split; [vm_compute; reflexivity|].
  intros H. specialize (H (rep 10 superscript_two)).
  assert (E : count_decimal (clean_phone (rep 10 superscript_two)) = 0)
    by (vm_compute; reflexivity).
  rewrite E in H. assert (V : validate_phone (rep 10 superscript_two) = true)
    by (vm_compute; reflexivity).
  apply H in V. lia.
Qed.

(** C1 (amended). [validate_phone p] holds iff [p] has at least 10
    characters for which [str.isdigit] holds (hyphens, spaces and
    parentheses are never such characters, so removing them changes no
    count); these are the decimal digits and the superscript digits
    U+00B2, U+00B3, U+00B9. On an ASCII string this is exactly: at least
    10 decimal digits remain after removing the separators. *)
Theorem validate_phone_spec (p : string) :
  (validate_phone p = true <-> 10 <= count_digits p) /\
  (all_ascii p = true -> (validate_phone p = true <-> 10 <= count_decimal (clean_phone p))).
Proof.
  unfold validate_phone. rewrite count_digits_clean. split.
  - apply Nat.leb_le.
  - intros H. rewrite <- count_digits_ascii.
    + rewrite count_digits_clean. apply Nat.leb_le.
    + unfold clean_phone. repeat apply all_ascii_replace_del. exact H.
Qed.

Example validate_phone_example_1 : validate_phone "(555) 123-4567" = true.
Proof. reflexivity. Qed.

Example validate_phone_example_2 : validate_phone "555-1234" = false.
Proof. reflexivity. Qed.

Lemma validate_phone_spec_witness :
  all_ascii "(555) 123-4567" = true /\
  (validate_phone "(555) 123-4567" = true <-> 10 <= count_decimal (clean_phone "(555) 123-4567")).
Proof.
  split; [reflexivity|].
  apply (proj2 (validate_phone_spec "(555) 123-4567")). reflexivity.
Defined.

(** ** Search *)

(** [a] occurs in [b], in the sense of the specification. *)
Definition substring_of (a b : string) : Prop :=
  exists pre post : string, b = (pre ++ a ++ post)%string.

Definition spec_match (query name : string) (c : contact) : Prop :=
  substring_of (lower query) (lower name) \/
  substring_of query (phone c) \/
  substring_of (lower query) (lower (email c)).

(** [l'] keeps, in order, exactly the elements of [l] satisfying [P]. *)
Inductive filtered {A : Type} (P : A -> Prop) : list A -> list A -> Prop :=
| filtered_nil : filtered P [] []
| filtered_keep x l l' : P x -> filtered P l l' -> filtered P (x :: l) (x :: l')
| filtered_drop x l l' : ~ P x -> filtered P l l' -> filtered P (x :: l) l'.

Lemma prefix_iff (a b : string) :
  prefix a b = true <-> exists post : string, b = (a ++ post)%string.
Proof.
  revert b. induction a as [|c a IH]; intros b; simpl.
  - destruct b; split; intros; eauto.
  - destruct b as [|d b].
    + split; [discriminate|]. intros [post H]. discriminate.
    + simpl. destruct (ascii_dec c d) as [E|E].
      * subst d. rewrite IH. split; intros [post H]; exists post; [subst; reflexivity|].
        injection H. auto.
      * split; [discriminate|]. intros [post H]. injection H. intros _ H'. congruence.
Qed.

Lemma str_in_iff (a b : string) : str_in a b = true <-> substring_of a b.
Proof.
  unfold substring_of. induction b as [|d b IH].
  - change (str_in a "") with (if prefix a "" then true else false).
    destruct (prefix a "") eqn:P.
    + split; [|reflexivity]. intros _. apply prefix_iff in P as [post P].
      exists EmptyString, post. exact P.
    + split; [discriminate|]. intros [pre [post H]].
      destruct pre; [|discriminate]. simpl in H.
      assert (prefix a "" = true) by (apply prefix_iff; exists post; exact H). congruence.
  - change (str_in a (String d b)) with (if prefix a (String d b) then true else str_in a b).
    destruct (prefix a (String d b)) eqn:P.
    + split; [|reflexivity]. intros _. apply prefix_iff in P as [post P].
      exists EmptyString, post. exact P.
    + rewrite IH. split.
      * intros [pre [post H]]. exists (String d pre), post. rewrite H. reflexivity.
      * intros [pre [post H]]. destruct pre as [|e pre].
        -- assert (prefix a (String d b) = true) by (apply prefix_iff; exists post; exact H).
           congruence.
        -- simpl in H. injection H. intros H' _. exists pre, post. exact H'.
Qed.

(** C7. [search_contact] keeps, in store order, exactly the entries whose
    name contains the query case-insensitively, or whose phone contains
    it exactly, or whose email contains it case-insensitively; when none
    does, the result is the empty list. *)
Theorem search_contact_spec (cs : store) (query : string) :
  filtered (fun e => spec_match query (fst e) (snd e)) cs (search_contact cs query).
Proof.
  induction cs as [|[name details] r IH]; simpl; [constructor|].
  destruct (str_in (lower query) (lower name) || str_in query (phone details)
            || str_in (lower query) (lower (email details))) eqn:M.
  - apply filtered_keep; [|exact IH]. simpl. unfold spec_match.
    repeat rewrite <- str_in_iff.
    apply orb_true_iff in M as [M|M]; [apply orb_true_iff in M as [M|M]|]; auto.
  - apply filtered_drop; [|exact IH]. simpl. unfold spec_match.
    repeat rewrite <- str_in_iff.
    apply orb_false_iff in M as [M M3]. apply orb_false_iff in M as [M1 M2].
    rewrite M1, M2, M3. intros [H|[H|H]]; discriminate.
Qed.

Lemma lower_empty : lower EmptyString = EmptyString.
Proof. reflexivity. Qed.

Lemma str_in_empty (b : string) : str_in EmptyString b = true.
Proof. destruct b; reflexivity. Qed.

(** C10. The empty query matches every contact: [search_contact] returns
    the whole store, in order. *)
Theorem search_contact_empty_query (cs : store) : search_contact cs EmptyString = cs.
Proof.
  induction cs as [|[name details] r IH]; simpl; [reflexivity|].
  rewrite str_in_empty. simpl. rewrite IH. reflexivity.
Qed.

(** ** Dictionary lemmas *)

Lemma dict_get_set_eq {V : Type} (k : string) (v : V) (d : list (string * V)) :
  dict_get k (dict_set k v d) = Some v.
Proof.
  induction d as [|[k' v'] r IH]; simpl.
  - rewrite String.eqb_refl. reflexivity.
  - destruct (String.eqb k' k) eqn:E; simpl; rewrite E; [reflexivity|exact IH].
Qed.

Lemma dict_get_set_neq {V : Type} (k k' : string) (v : V) (d : list (string * V)) :
  k' <> k -> dict_get k' (dict_set k v d) = dict_get k' d.
Proof.
  intros Hne. induction d as [|[k0 v0] r IH]; simpl.
  - destruct (String.eqb_spec k k'); [congruence|reflexivity].
  - destruct (String.eqb_spec k0 k) as [E|E]; simpl.
    + subst k0. destruct (String.eqb_spec k k'); [congruence|reflexivity].
    + destruct (String.eqb k0 k'); [reflexivity|exact IH].
Qed.

Lemma dict_set_keys {V : Type} (k : string) (v : V) (d : list (string * V)) :
  dict_get k d <> None -> map fst (dict_set k v d) = map fst d.
Proof.
  induction d as [|[k0 v0] r IH]; simpl; [congruence|].
  destruct (String.eqb_spec k0 k) as [E|E]; simpl.
  - reflexivity.
  - intros H. rewrite IH by exact H. reflexivity.
Qed.

Lemma dict_get_none_set {V : Type} (k : string) (v : V) (d : list (string * V)) :
  dict_get k d = None -> dict_set k v d = d ++ [(k, v)].
Proof.
  induction d as [|[k0 v0] r IH]; simpl; [reflexivity|].
  destruct (String.eqb k0 k); [discriminate|]. intros H. rewrite IH by exact H. reflexivity.
Qed.

Lemma dict_get_in_keys {V : Type} (k : string) (d : list (string * V)) :
  In k (map fst d) -> dict_get k d <> None.
Proof.
  induction d as [|[k0 v0] r IH]; simpl; [tauto|].
  destruct (String.eqb_spec k0 k); [discriminate|]. intros [H|H]; [congruence|auto].
Qed.

Lemma dict_get_not_in_keys {V : Type} (k : string) (d : list (string * V)) :
  ~ In k (map fst d) -> dict_get k d = None.
Proof.
  induction d as [|[k0 v0] r IH]; simpl; [reflexivity|].
  destruct (String.eqb_spec k0 k); [tauto|]. intros H. apply IH. tauto.
Qed.

Lemma update_at_keys (k : string) (f : contact -> contact) (cs : store) :
  map fst (update_at k f cs) = map fst cs.
Proof.
  unfold update_at. destruct (dict_get k cs) eqn:E; [|reflexivity].
  apply dict_set_keys. congruence.
Qed.

Lemma update_at_eq (k : string) (f : contact -> contact) (cs : store) :
  dict_get k (update_at k f cs) = option_map f (dict_get k cs).
Proof.
  unfold update_at. destruct (dict_get k cs) eqn:E; [|exact E].
  apply dict_get_set_eq.
Qed.

Lemma update_at_neq (k k' : string) (f : contact -> contact) (cs : store) :
  k' <> k -> dict_get k' (update_at k f cs) = dict_get k' cs.
Proof.
  intros H. unfold update_at. destruct (dict_get k cs); [|reflexivity].
  apply dict_get_set_neq. exact H.
Qed.

Lemma find_key_spec (name k : string) (cs : store) :
  find_key name cs = Some k -> lower k = lower name /\ In k (map fst cs).
Proof.
  induction cs as [|[k0 v0] r IH]; simpl; [discriminate|].
  destruct (String.eqb_spec (lower k0) (lower name)) as [E|E].
  - intros H. injection H as <-. auto.
  - intros H. apply IH in H as [H1 H2]. auto.
Qed.

Lemma find_key_complete (name : string) (cs : store) :
  In (lower name) (map (fun e => lower (fst e)) cs) -> exists k, find_key name cs = Some k.
Proof.
  induction cs as [|[k0 v0] r IH]; simpl; [tauto|].
  destruct (String.eqb_spec (lower k0) (lower name)) as [E|E]; [eauto|].
  intros [H|H]; [congruence|auto].
Qed.

Lemma existsb_lower_iff (name : string) (cs : store) :
  existsb (String.eqb (lower name)) (map (fun e => lower (fst e)) cs) = true <->
  In (lower name) (map (fun e => lower (fst e)) cs).
Proof.
  rewrite existsb_exists. split.
  - intros [x [H1 H2]]. apply String.eqb_eq in H2. subst x. exact H1.
  - intros H. exists (lower name). split; [exact H|apply String.eqb_refl].
Qed.

(** ** Editing and adding *)

(** C2. When [name] resolves case-insensitively and a non-empty phone
    fails validation, [edit_contact] returns [False] having only printed
    the notice: the mapping and the file are those before the call (no
    field, in particular neither email nor address, is applied), and no
    write happens. *)
Theorem edit_contact_invalid_phone (b : book) (name p : string)
    (email_arg address_arg : option string) :
  In (lower name) (map (fun e => lower (fst e)) (contacts b)) ->
  p <> EmptyString ->
  validate_phone p = false ->
  edit_contact b name (Some p) email_arg address_arg
  = (false, print "Invalid phone number format!" b).
Proof.
  intros Hin Hp Hv. destruct (find_key_complete name (contacts b) Hin) as [k Hk].
  unfold edit_contact. rewrite Hk. simpl.
  destruct (String.eqb_spec p EmptyString) as [E|E]; [contradiction|]. simpl.
  rewrite Hv. reflexivity.
Qed.

Lemma edit_contact_invalid_phone_witness :
  let b := snd (add_contact (mkDatetime 2024 3 5 9 7 1) (mkBook [] None [])
                  "Carol" "5551234567" "c@example.com" "") in
  edit_contact b "carol" (Some "555-1234") (Some "new@example.com") (Some "Home")
  = (false, print "Invalid phone number format!" b).
Proof.
  intros b. apply edit_contact_invalid_phone.
  - vm_compute. left. reflexivity.
  - discriminate.
  - reflexivity.
Defined.

(** C3. [add_contact] on a name whose lowercase form is the lowercase
    form of a stored key returns [False] having only printed a notice:
    mapping and file unchanged, no write. In particular, after a
    successful [add_contact n1], adding any [n2] with the same lowercase
    form fails in that way. *)
Theorem add_contact_existing (now : datetime) (b : book) (name p e a : string) :
  (In (lower name) (map (fun x => lower (fst x)) (contacts b)) ->
   add_contact now b name p e a
   = (false, print ("Contact " ++ quoted name ++ " already exists!") b)) /\
  (forall (now' : datetime) (n2 p2 e2 a2 : string),
   lower n2 = lower name ->
   fst (add_contact now b name p e a) = true ->
   let b1 := snd (add_contact now b name p e a) in
   add_contact now' b1 n2 p2 e2 a2
   = (false, print ("Contact " ++ quoted n2 ++ " already exists!") b1)).
Proof.
  split.
  - intros Hin. unfold add_contact.
    apply existsb_lower_iff in Hin. rewrite Hin. reflexivity.
  - intros now' n2 p2 e2 a2 Hl Hok b1.
    unfold b1 in *. unfold add_contact in Hok |- *.
    destruct (existsb (String.eqb (lower name)) (map (fun x => lower (fst x)) (contacts b)))
      eqn:Ex; [discriminate|].
    destruct (negb (validate_phone p)); [discriminate|]. simpl.
    assert (Hn : ~ In name (map fst (contacts b))).
    { intros Hn. apply Bool.not_true_iff_false in Ex. apply Ex. apply existsb_lower_iff.
      apply in_map_iff in Hn as [[k c] [Hk Hin]]. simpl in Hk. subst k.
      apply in_map_iff. exists (name, c). auto. }
    rewrite dict_get_none_set by (apply dict_get_not_in_keys; exact Hn).
    assert (Hin : existsb (String.eqb (lower n2))
                    (map (fun x => lower (fst x))
                       (contacts b ++ [(name, mkContact p e a (strftime_ts now))])) = true).
    { apply existsb_lower_iff. rewrite map_app. apply in_or_app. right. simpl. left.
      symmetry. exact Hl. }
    simpl in Hin |- *. rewrite Hin. reflexivity.
Qed.

Lemma add_contact_existing_witness :
  let b1 := snd (add_contact (mkDatetime 2024 3 5 9 7 1) (mkBook [] None [])
                   "Alice" "5551234567" "" "") in
  add_contact (mkDatetime 2024 3 5 9 8 0) b1 "ALICE" "5559876543" "" ""
  = (false, print ("Contact " ++ quoted "ALICE" ++ " already exists!") b1).
Proof.
  intros b1.
  apply (proj2 (add_contact_existing (mkDatetime 2024 3 5 9 7 1) (mkBook [] None [])
                  "Alice" "5551234567" "" "")); reflexivity.
Defined.

(** The record that [edit_contact] leaves at the resolved key. *)
Definition edited (ph em ad : option string) (c : contact) : contact :=
  let c1 := match ph with Some p => if truthy ph then set_phone p c else c | None => c end in
  let c2 := match em with Some e => if truthy em then set_email e c1 else c1 | None => c1 end in
  match ad with Some a => if truthy ad then set_address a c2 else c2 | None => c2 end.

(** C8. A successful [edit_contact] resolves [name] to a stored key [k]
    (same lowercase form) and changes only the record at [k]: the keys,
    with their original case and order, stay as they were, every other
    key maps to the same record, the record at [k] keeps its
    [date_added] and every field whose argument was [None] or empty,
    supplied fields take the supplied values, and the file holds the
    dump of the new mapping. *)
Theorem edit_contact_frame (b b' : book) (name : string) (ph em ad : option string) :
  edit_contact b name ph em ad = (true, b') ->
  exists k c, find_key name (contacts b) = Some k /\ lower k = lower name /\
    dict_get k (contacts b) = Some c /\
    dict_get k (contacts b') = Some (edited ph em ad c) /\
    date_added (edited ph em ad c) = date_added c /\
    (truthy ph = false -> phone (edited ph em ad c) = phone c) /\
    (truthy em = false -> email (edited ph em ad c) = email c) /\
    (truthy ad = false -> address (edited ph em ad c) = address c) /\
    map fst (contacts b') = map fst (contacts b) /\
    (forall k', k' <> k -> dict_get k' (contacts b') = dict_get k' (contacts b)) /\
    file b' = Some (dump_store (contacts b')).
Proof.
  unfold edit_contact. destruct (find_key name (contacts b)) as [k|] eqn:Hk;
    [|intros H; discriminate].
  destruct (find_key_spec name k (contacts b) Hk) as [Hl Hin].
  destruct (dict_get k (contacts b)) as [c|] eqn:Hc;
    [|exfalso; exact (dict_get_in_keys k (contacts b) Hin Hc)].
  intros H. exists k, c.
  unfold edited, truthy in *.
  destruct ph as [p|]; try destruct (String.eqb p EmptyString) eqn:Tp;
    try destruct (validate_phone p) eqn:Vp; simpl in H; try discriminate;
  destruct em as [e|]; try destruct (String.eqb e EmptyString) eqn:Te;
  destruct ad as [a|]; try destruct (String.eqb a EmptyString) eqn:Ta;
  injection H as <-; simpl;
  repeat split; try assumption; try discriminate; try reflexivity;
  try (repeat rewrite update_at_eq; rewrite Hc; reflexivity);
  try (repeat rewrite update_at_keys; reflexivity);
  try (intros k' Hne; repeat rewrite update_at_neq by exact Hne; reflexivity).
Qed.

Definition carol_book : book :=
  snd (add_contact (mkDatetime 2024 3 5 9 7 1) (mkBook [] None [])
         "Carol" "5551234567" "c@example.com" "").

Lemma edit_contact_frame_witness :
  let r := edit_contact carol_book "carol" None (Some "new@example.com") None in
  fst r = true /\
  exists k c, find_key "carol" (contacts carol_book) = Some k /\
    dict_get k (contacts (snd r)) = Some (edited None (Some "new@example.com") None c) /\
    date_added (edited None (Some "new@example.com") None c) = date_added c.
Proof.
  intros r. split; [reflexivity|].
  destruct (edit_contact_frame carol_book (snd r) "carol" None (Some "new@example.com") None)
    as (k & c & H1 & _ & _ & H4 & H5 & _); [vm_compute; reflexivity|].
  exists k, c. split; [exact H1|]. split; [exact H4|exact H5].
Defined.

(** ** Timestamps *)

Lemma code_digit (m : nat) : m < 10 -> code (digit m) = 48 + m.
Proof.
  intros H. unfold code, digit. apply nat_ascii_embedding. lia.
Qed.

Lemma is_dec_digit (m : nat) : m < 10 -> is_dec (digit m) = true.
Proof.
  intros H. unfold is_dec, is_decimal_digit. rewrite code_digit by exact H.
  apply andb_true_iff. split; apply Nat.leb_le; lia.
Qed.

Lemma dec_four_digits (y : nat) :
  1000 <= y <= 9999 ->
  dec y = String (digit ((y / 10 / 10 / 10) mod 10))
            (String (digit ((y / 10 / 10) mod 10))
               (String (digit ((y / 10) mod 10)) (String (digit (y mod 10)) EmptyString))).
Proof.
  intros H.
  pose proof (Nat.Div0.div_le_mono 1000 y 10 ltac:(lia)) as A1.
  pose proof (Nat.Div0.div_le_mono y 9999 10 ltac:(lia)) as B1.
  change (1000 / 10) with 100 in A1. change (9999 / 10) with 999 in B1.
  pose proof (Nat.Div0.div_le_mono 100 (y / 10) 10 ltac:(lia)) as A2.
  pose proof (Nat.Div0.div_le_mono (y / 10) 999 10 ltac:(lia)) as B2.
  change (100 / 10) with 10 in A2. change (999 / 10) with 99 in B2.
  pose proof (Nat.Div0.div_le_mono (y / 10 / 10) 99 10 ltac:(lia)) as B3.
  change (99 / 10) with 9 in B3.
  unfold dec. cbn [dec_aux].
  replace (y <? 10) with false by (symmetry; apply Nat.ltb_ge; lia).
  replace (y / 10 <? 10) with false by (symmetry; apply Nat.ltb_ge; lia).
  replace (y / 10 / 10 <? 10) with false by (symmetry; apply Nat.ltb_ge; lia).
  replace (y / 10 / 10 / 10 <? 10) with true by (symmetry; apply Nat.ltb_lt; lia).
  reflexivity.
Qed.

Lemma strftime_ts_shape (d : datetime) :
  valid_datetime d -> 1000 <= year d -> is_timestamp (strftime_ts d) = true.
Proof.
  intros (Hy & Hmo & Hd & Hh & Hmi & Hs) Hy'.
  unfold strftime_ts. rewrite dec_four_digits by lia.
  unfold pad2. cbn -[digit is_dec Nat.div Nat.modulo].
  repeat rewrite is_dec_digit
    by first [apply Nat.mod_upper_bound; lia | apply Nat.Div0.div_lt_upper_bound; lia].
  reflexivity.
Qed.

Lemma not_in_lower_not_in_keys (name : string) (cs : store) :
  ~ In (lower name) (map (fun x => lower (fst x)) cs) -> ~ In name (map fst cs).
Proof.
  intros H Hn. apply H. apply in_map_iff in Hn as [[k c] [Hk Hin]]. simpl in Hk. subst k.
  apply in_map_iff. exists (name, c). auto.
Qed.

Lemma dict_get_app_new (name : string) (c : contact) (cs : store) :
  ~ In name (map fst cs) -> dict_get name (cs ++ [(name, c)]) = Some c.
Proof.
  induction cs as [|[k0 v0] r IH]; simpl.
  - rewrite String.eqb_refl. reflexivity.
  - intros H. destruct (String.eqb_spec k0 name); [tauto|]. apply IH. tauto.
Qed.

Lemma find_key_app_new (n' name : string) (c : contact) (cs : store) :
  lower n' = lower name ->
  ~ In (lower name) (map (fun x => lower (fst x)) cs) ->
  find_key n' (cs ++ [(name, c)]) = Some name.
Proof.
  intros E. induction cs as [|[k0 v0] r IH]; simpl.
  - rewrite E, String.eqb_refl. reflexivity.
  - intros H. destruct (String.eqb_spec (lower k0) (lower n')) as [E'|E'].
    + exfalso. apply H. left. congruence.
    + apply IH. tauto.
Qed.

(** C4. When no stored key has the lowercase form of [name] and the phone
    is valid, [add_contact] returns [True]; the new mapping is the old one
    with [name] (in its original case) appended, mapped to a record of the
    given phone, email and address and the formatted clock value, which
    has the shape YYYY-MM-DD HH:MM:SS; any spelling of [name] resolves to
    it case-insensitively; and the mapping has been written to the file. *)
Theorem add_contact_success (now : datetime) (b : book) (name p e a : string) :
  ~ In (lower name) (map (fun x => lower (fst x)) (contacts b)) ->
  validate_phone p = true ->
  valid_datetime now -> 1000 <= year now ->
  exists b', add_contact now b name p e a = (true, b') /\
    contacts b' = contacts b ++ [(name, mkContact p e a (strftime_ts now))] /\
    dict_get name (contacts b') = Some (mkContact p e a (strftime_ts now)) /\
    (forall n', lower n' = lower name -> find_key n' (contacts b') = Some name) /\
    is_timestamp (strftime_ts now) = true /\
    file b' = Some (dump_store (contacts b')) /\
    In (Wrote (dump_store (contacts b'))) (log b').
Proof.
  intros Hn Hv Hd Hy.
  assert (Hk : ~ In name (map fst (contacts b))) by (apply not_in_lower_not_in_keys; exact Hn).
  unfold add_contact.
  destruct (existsb (String.eqb (lower name)) (map (fun x => lower (fst x)) (contacts b)))
    eqn:Ex; [apply existsb_lower_iff in Ex; contradiction|].
  rewrite Hv. simpl.
  rewrite dict_get_none_set by (apply dict_get_not_in_keys; exact Hk).
  eexists. split; [reflexivity|]. simpl.
  split; [reflexivity|].
  split; [apply dict_get_app_new; exact Hk|].
  split; [intros n' E; apply find_key_app_new; assumption|].
  split; [apply strftime_ts_shape; assumption|].
  split; [reflexivity|].
  apply in_or_app. left. apply in_or_app. right. left. reflexivity.
Qed.

Lemma add_contact_success_witness :
  exists b', add_contact (mkDatetime 2024 3 5 9 7 1) (mkBook [] None [])
               "Alice" "5551234567" "" "" = (true, b') /\
    find_key "alice" (contacts b') = Some "Alice" /\ find_key "Bob" (contacts b') = None.
Proof.
  destruct (add_contact_success (mkDatetime 2024 3 5 9 7 1) (mkBook [] None [])
              "Alice" "5551234567" "" "")
    as (b' & H1 & H2 & _ & H4 & _); [simpl; tauto|reflexivity|
                                     unfold valid_datetime; simpl; repeat split;
                                     first [apply Nat.leb_le | apply Nat.ltb_lt];
                                     vm_compute; reflexivity|simpl; lia|].
  exists b'. split; [exact H1|]. split; [apply H4; reflexivity|].
  rewrite H2. reflexivity.
Defined.

(** ** Case-insensitive uniqueness of keys *)

Definition contact0 : contact := mkContact "5551234567" "" "" "2024-03-05 09:07:01".

(** A backing file written by an earlier run or by hand. *)
Definition two_bobs_file : string := dump_store [("Bob", contact0); ("bob", contact0)].

(** C5 (counterexample). [load_contacts] does not establish the
    invariant: a file whose keys differ only in case is loaded as is,
    without a notice, and the resulting mapping has two keys with the
    same lowercase form. *)
Lemma load_contacts_case_duplicates_counterexample :
  exists v s, load_contacts sample_depth (Some two_bobs_file) = (Some v, []) /\
    store_of_json v = Some s /\ ~ ci_unique s.
Proof.
  exists (json_of_store [("Bob", contact0); ("bob", contact0)]),
         [("Bob", contact0); ("bob", contact0)].
  split; [vm_compute; reflexivity|]. split; [vm_compute; reflexivity|].
  unfold ci_unique. simpl. intros H. inversion H as [|x l Hx Hl]. apply Hx. left. reflexivity.
Qed.

Lemma nodup_snoc {A B : Type} (f : A -> B) (l : list A) (x : A) :
  NoDup (map f l) -> ~ In (f x) (map f l) -> NoDup (map f (l ++ [x])).
Proof.
  induction l as [|y r IH]; simpl; intros H Hx.
  - constructor; [tauto|constructor].
  - inversion H as [|z m Hz Hm]. subst. constructor.
    + rewrite map_app, in_app_iff. simpl. intros [Hi|[Hi|Hi]]; [tauto| |tauto].
      apply Hx. left. congruence.
    + apply IH; [exact Hm|]. tauto.
Qed.

Lemma dict_del_incl {V : Type} (k : string) (d : list (string * V)) (x : string * V) :
  In x (dict_del k d) -> In x d.
Proof.
  induction d as [|[k0 v0] r IH]; simpl; [tauto|].
  destruct (String.eqb k0 k); simpl; [tauto|]. intros [H|H]; [left; exact H|right; auto].
Qed.

Lemma ci_unique_del (k : string) (cs : store) : ci_unique cs -> ci_unique (dict_del k cs).
Proof.
  unfold ci_unique. induction cs as [|[k0 v0] r IH]; simpl; [tauto|].
  intros H. inversion H as [|z m Hz Hm]. subst.
  destruct (String.eqb k0 k); [exact Hm|]. simpl. constructor; [|auto].
  intros Hi. apply Hz. apply in_map_iff in Hi as [y [Hy Hin]].
  apply in_map_iff. exists y. split; [exact Hy|]. apply dict_del_incl with k. exact Hin.
Qed.

Lemma ci_unique_same_keys (cs cs' : store) :
  map fst cs' = map fst cs -> ci_unique cs -> ci_unique cs'.
Proof.
  unfold ci_unique. intros E.
  replace (map (fun e => lower (fst e)) cs') with (map lower (map fst cs'))
    by (rewrite map_map; reflexivity).
  replace (map (fun e => lower (fst e)) cs) with (map lower (map fst cs))
    by (rewrite map_map; reflexivity).
  rewrite E. tauto.
Qed.

Lemma contacts_print_all (msgs : list string) (b : book) :
  contacts (print_all msgs b) = contacts b.
Proof.
  unfold print_all. revert b. induction msgs as [|m r IH]; intros b; simpl; [reflexivity|].
  rewrite IH. reflexivity.
Qed.

Lemma edit_contact_keys (b : book) (name : string) (ph em ad : option string) :
  map fst (contacts (snd (edit_contact b name ph em ad))) = map fst (contacts b).
Proof.
  unfold edit_contact. destruct (find_key name (contacts b)) as [k|]; [|reflexivity].
  destruct ph as [p|]; try destruct (truthy (Some p));
    try destruct (negb (validate_phone p)); simpl; try reflexivity;
  destruct em as [e|]; try destruct (truthy (Some e));
  destruct ad as [a|]; try destruct (truthy (Some a));
  repeat rewrite update_at_keys; reflexivity.
Qed.

Lemma add_contact_ci_unique (now : datetime) (b : book) (name p e a : string) :
  ci_unique (contacts b) -> ci_unique (contacts (snd (add_contact now b name p e a))).
Proof.
  intros H. unfold add_contact.
  destruct (existsb (String.eqb (lower name)) (map (fun x => lower (fst x)) (contacts b)))
    eqn:Ex; [exact H|].
  destruct (negb (validate_phone p)); [exact H|]. simpl.
  assert (Hn : ~ In (lower name) (map (fun x => lower (fst x)) (contacts b))).
  { intros Hi. apply existsb_lower_iff in Hi. congruence. }
  rewrite dict_get_none_set
    by (apply dict_get_not_in_keys, not_in_lower_not_in_keys; exact Hn).
  apply nodup_snoc; [exact H|exact Hn].
Qed.

(** C5 (amended). Every store operation (add, edit, delete, search,
    display, list) preserves the invariant that no two keys have the same
    lowercase form, hence so does every sequence of operations; the
    invariant holds for the mapping loaded from a missing file (empty),
    but [load_contacts] itself does not check it. *)
Theorem ci_unique_preserved (b : book) (ops : list op) :
  ci_unique (contacts b) ->
  (forall o, ci_unique (contacts (run_op b o))) /\
  ci_unique (contacts (fold_left run_op ops b)).
Proof.
  assert (Step : forall b o, ci_unique (contacts b) -> ci_unique (contacts (run_op b o))).
  { clear b ops. intros b o H. destruct o as [now n p e a|n p e a|n|q|n|]; unfold run_op.
    - apply add_contact_ci_unique. exact H.
    - apply ci_unique_same_keys with (contacts b); [apply edit_contact_keys|exact H].
    - unfold delete_contact. destruct (find_key n (contacts b)); simpl; [|exact H].
      apply ci_unique_del. exact H.
    - exact H.
    - unfold display_contact. destruct (find_key n (contacts b)) as [k|]; [|exact H].
      destruct (dict_get k (contacts b)); [|exact H].
      unfold snd. rewrite contacts_print_all. exact H.
    - unfold list_all_contacts. destruct (contacts b) eqn:E;
        [unfold ci_unique; simpl; rewrite E; constructor|].
      rewrite contacts_print_all. rewrite E. exact H. }
  intros H. split; [intros o; apply Step; exact H|].
  revert b H. induction ops as [|o r IH]; intros b H; simpl; [exact H|].
  apply IH. apply Step. exact H.
Qed.

Lemma ci_unique_preserved_witness :
  ci_unique (contacts (fold_left run_op
    [OpAdd (mkDatetime 2024 3 5 9 7 1) "Alice" "5551234567" "" "";
     OpAdd (mkDatetime 2024 3 5 9 8 0) "alice" "5559876543" "" "";
     OpEdit "ALICE" None (Some "a@example.com") None]
    (mkBook [] None []))).
Proof.
  apply (proj2 (ci_unique_preserved (mkBook [] None []) _ (NoDup_nil _))).
Defined.

(** ** Round trip through the file *)

Lemma str_app_assoc (a b c : string) : ((a ++ b) ++ c)%string = (a ++ (b ++ c))%string.
Proof. induction a as [|x a IH]; simpl; [reflexivity|]. rewrite IH. reflexivity. Qed.

Lemma scan_str_enc_char (c : ascii) (rest : string) :
  scan_str (enc_char c ++ rest) = pcons c (scan_str rest).
Proof.
  destruct c as [[] [] [] [] [] [] [] []]; reflexivity.
Qed.

Lemma scan_str_enc_body (s rest : string) :
  scan_str (enc_body s ++ String dq rest) = POk s rest.
Proof.
  induction s as [|c s IH]; [reflexivity|].
  simpl enc_body. rewrite str_app_assoc, scan_str_enc_char, IH. reflexivity.
Qed.

Lemma scan_str_encode (s X : string) :
  scan_str ((enc_body s ++ String dq EmptyString) ++ X) = POk s X.
Proof. rewrite str_app_assoc. apply scan_str_enc_body. Qed.

Lemma skip_ws_dump_contact (c : contact) (X : string) :
  skip_ws (dump_contact c ++ X) = (dump_contact c ++ X)%string.
Proof. reflexivity. Qed.

Lemma str_length_app (a b : string) :
  String.length (a ++ b) = String.length a + String.length b.
Proof. induction a as [|x a IH]; simpl; [reflexivity|]. rewrite IH. reflexivity. Qed.

Lemma dict_of_pairs_nodup_aux {V : Type} (l d : list (string * V)) :
  NoDup (map fst (d ++ l)) ->
  fold_left (fun d '(k, v) => dict_set k v d) l d = d ++ l.
Proof.
  revert d. induction l as [|[k v] l IH]; intros d H; simpl; [rewrite app_nil_r; reflexivity|].
  rewrite dict_get_none_set.
  - rewrite IH; [rewrite <- app_assoc; reflexivity|]. rewrite <- app_assoc. exact H.
  - apply dict_get_not_in_keys. rewrite map_app in H. simpl in H.
    apply NoDup_remove_2 in H. rewrite in_app_iff in H. tauto.
Qed.

Lemma dict_of_pairs_nodup {V : Type} (l : list (string * V)) :
  NoDup (map fst l) -> dict_of_pairs l = l.
Proof. intros H. apply (dict_of_pairs_nodup_aux l []). exact H. Qed.

Arguments enc_body : simpl never.
Arguments scan_str : simpl never.

Ltac parse_step :=
  first [ rewrite scan_str_encode
        | match goal with
          | |- context [pvalue ?f _ _] => is_var f; destruct f as [|f]; [lia|]
          | |- context [pmembers ?f _ _ _] => is_var f; destruct f as [|f]; [lia|]
          end ];
  simpl.

Lemma pvalue_contact (c : contact) (f dp : nat) (X : string) :
  6 <= f -> pvalue f (S dp) (dump_contact c ++ X) = POk (json_of_contact c) X.
Proof.
  intros H. unfold dump_contact. repeat rewrite str_app_assoc.
  repeat parse_step.
  rewrite dict_of_pairs_nodup; [reflexivity|].
  simpl. repeat constructor; simpl; intuition discriminate.
Qed.

Fixpoint dump_tail (s : store) (rest : string) : string :=
  match s with
  | [] => nli 0 ++ "}" ++ rest
  | e :: r => "," ++ nli 1 ++ dump_entry e ++ dump_tail r rest
  end.
Definition entry_json (e : string * contact) : string * json := (fst e, json_of_contact (snd e)).

Lemma pmembers_entries (s : store) (dp : nat) : forall k c acc f rest,
  String.length (dump_tail s rest) + 8 <= f ->
  pmembers f (S dp) ((enc_body k ++ String dq EmptyString) ++ ": " ++ dump_contact c ++ dump_tail s rest) acc
  = POk (JObj (dict_of_pairs (acc ++ (k, json_of_contact c) :: map entry_json s))) rest.
Proof.
  induction s as [|[k' c'] r IH]; intros k c acc f rest H.
  - remember (dump_contact c) as D. parse_step.
    rewrite scan_str_encode. simpl.
    rewrite HeqD, skip_ws_dump_contact, pvalue_contact by lia. simpl.
    reflexivity.
  - assert (Hl : 1 + String.length (dump_tail r rest) <= String.length (dump_tail ((k', c') :: r) rest)).
    { simpl. rewrite !str_length_app. lia. }
    remember (dump_contact c) as D. parse_step.
    rewrite scan_str_encode. simpl.
    rewrite HeqD, skip_ws_dump_contact, pvalue_contact by lia.
    unfold dump_entry. cbn [fst snd].
    remember (dump_contact c') as D'. simpl.
    rewrite (str_app_assoc (enc_body k' ++ String dq EmptyString)). subst D'.
    etransitivity; [apply (IH k' c' (acc ++ [(k, json_of_contact c)]) f rest); lia|].
    rewrite <- app_assoc. reflexivity.
Qed.

Lemma dump_entries_tail (s : store) : forall e rest,
  (dump_entries (e :: s) ++ (nli 0 ++ "}" ++ rest))%string = (dump_entry e ++ dump_tail s rest)%string.
Proof.
  induction s as [|e' s IH]; intros e rest; [reflexivity|].
  change (dump_entries (e :: e' :: s)) with (dump_entry e ++ "," ++ nli 1 ++ dump_entries (e' :: s))%string.
  rewrite !str_app_assoc. rewrite IH. reflexivity.
Qed.

Lemma dump_store_cons (k : string) (c : contact) (r : store) :
  dump_store ((k, c) :: r) =
  String "{" (nli 1 ++ String dq ((enc_body k ++ String dq EmptyString) ++
                                  ": " ++ dump_contact c ++ dump_tail r EmptyString)).
Proof.
  unfold dump_store.
  change ("{" ++ nli 1 ++ dump_entries ((k, c) :: r) ++ nli 0 ++ "}")%string
    with ("{" ++ nli 1 ++ (dump_entries ((k, c) :: r) ++ (nli 0 ++ "}" ++ EmptyString)))%string.
  rewrite dump_entries_tail. unfold dump_entry, encode_str. cbn [fst snd].
  remember (dump_contact c) as D. rewrite !str_app_assoc. simpl.
  rewrite str_app_assoc. reflexivity.
Qed.

Lemma json_loads_dump_store (s : store) (max_depth : nat) :
  NoDup (map fst s) -> 2 <= max_depth -> json_loads max_depth (dump_store s) = DOk (json_of_store s).
Proof.
  intros Hnd Hd. destruct max_depth as [|[|dp]]; [lia|lia|].
  destruct s as [|[k c] r]; [reflexivity|].
  unfold json_loads. rewrite dump_store_cons.
  remember (dump_contact c) as D.
  remember (2 * String.length (String "{" (nli 1 ++ String dq ((enc_body k ++ String dq EmptyString)
              ++ ": " ++ D ++ dump_tail r EmptyString))) + 2) as F eqn:HF.
  assert (HF' : String.length (dump_tail r EmptyString) + 9 <= F).
  { subst F. simpl. rewrite !str_app_assoc, !str_length_app. simpl.
    rewrite !str_length_app. lia. }
  clear HF. destruct F as [|F]; [lia|]. simpl.
  assert (HP := pmembers_entries r dp k c [] F EmptyString ltac:(lia)).
  rewrite <- HeqD in HP. simpl in HP. rewrite HP. simpl.
  rewrite dict_of_pairs_nodup; [reflexivity|].
  unfold entry_json. simpl. rewrite map_map. exact Hnd.
Qed.

Lemma store_of_json_of_store (s : store) : store_of_json (json_of_store s) = Some s.
Proof.
  induction s as [|[k [p e a d]] r IH]; [reflexivity|].
  unfold store_of_json, json_of_store in *. simpl. rewrite IH. reflexivity.
Qed.

(** C6. Persisting a mapping whose keys are distinct (as the keys of a
    Python dict are) and loading the written file gives back the same
    dict of dicts, keys and insertion order included, with no notice; read
    as a record-of-records it is the original mapping, with the four
    fields of every contact. The written file nests two levels deep (the
    mapping, then each contact), so the scanner's recursion budget must
    allow two open objects. *)
Theorem save_load_roundtrip (b : book) (max_depth : nat) :
  NoDup (map fst (contacts b)) -> 2 <= max_depth ->
  load_contacts max_depth (file (save_contacts b)) = (Some (json_of_store (contacts b)), []) /\
  store_of_json (json_of_store (contacts b)) = Some (contacts b).
Proof.
  intros H Hd. split.
  - simpl. unfold load_contacts. rewrite json_loads_dump_store by assumption. reflexivity.
  - apply store_of_json_of_store.
Qed.

Lemma save_load_roundtrip_witness :
  let b := mkBook [(("Al" ++ String dq "ice")%string, mkContact "(555) 123-4567" "a@x.org" "Main St." "2024-03-05 09:07:01");
                   ("Bob", mkContact "5559876543" EmptyString (String bs (String nl "Apt 2")) "2024-03-05 09:08:00")]
                  None [] in
  NoDup (map fst (contacts b)) /\ 2 <= sample_depth /\
  load_contacts sample_depth (file (save_contacts b)) = (Some (json_of_store (contacts b)), []) /\
  store_of_json (json_of_store (contacts b)) = Some (contacts b).
Proof.
  intros b.
  assert (H : NoDup (map fst (contacts b))).
  { simpl. repeat constructor; simpl; intuition discriminate. }
  assert (Hd : 2 <= sample_depth) by (unfold sample_depth; lia).
  split; [exact H|]. split; [exact Hd|]. apply (save_load_roundtrip b sample_depth H Hd).
Defined.

(** ** Loading *)












(** ** Further properties of the code *)

Lemma count_digits_le_length (s : string) : count_digits s <= String.length s.
Proof. induction s as [|c r IH]; simpl; [lia|]. destruct (isdigit c); lia. Qed.

Lemma count_digits_app (p q : string) :
  count_digits (p ++ q) = count_digits p + count_digits q.
Proof. induction p as [|c r IH]; simpl; [reflexivity|]. rewrite IH. lia. Qed.

(** [validate_phone] accepts no string with fewer than 10 characters. *)
Theorem validate_phone_min_length (p : string) :
  validate_phone p = true -> 10 <= String.length p.
Proof.
  unfold validate_phone. rewrite count_digits_clean. intros H.
  apply Nat.leb_le in H. pose proof (count_digits_le_length p). lia.
Qed.

Lemma validate_phone_min_length_witness :
  validate_phone "(555) 123-4567" = true /\ 10 <= String.length "(555) 123-4567".
Proof. split; [reflexivity|]. apply validate_phone_min_length. reflexivity. Defined.

(** Adding characters before or after a valid phone number keeps it
    valid: extra text can never make [validate_phone] fail. *)
Theorem validate_phone_extend (p q : string) :
  validate_phone p = true ->
  validate_phone (p ++ q) = true /\ validate_phone (q ++ p) = true.
Proof.
  unfold validate_phone. rewrite !count_digits_clean, !count_digits_app.
  intros H. apply Nat.leb_le in H. split; apply Nat.leb_le; lia.
Qed.

Lemma validate_phone_extend_witness :
  validate_phone "5551234567" = true /\
  validate_phone ("5551234567" ++ " ext. 12") = true /\
  validate_phone (" ext. 12" ++ "5551234567") = true.
Proof.
  split; [reflexivity|]. apply validate_phone_extend. reflexivity.
Defined.


(** *** Name resolution *)

Lemma find_key_none (name : string) (cs : store) :
  ~ In (lower name) (map (fun e => lower (fst e)) cs) -> find_key name cs = None.
Proof.
  induction cs as [|[k0 v0] r IH]; simpl; [reflexivity|].
  destruct (String.eqb_spec (lower k0) (lower name)) as [E|E]; [intros H; exfalso; apply H; left; exact E|].
  intros H. apply IH. tauto.
Qed.

Lemma find_key_none_iff (name : string) (cs : store) :
  find_key name cs = None <-> ~ In (lower name) (map (fun e => lower (fst e)) cs).
Proof.
  split; [|apply find_key_none].
  intros H Hi. apply find_key_complete in Hi as [k Hk]. congruence.
Qed.

(** A name that no stored key matches case-insensitively: [edit_contact],
    [delete_contact] and [display_contact] all return [False] after
    printing the same not-found notice, and change neither the mapping
    nor the file. *)
Theorem unknown_name_operations (b : book) (name : string) (ph em ad : option string) :
  ~ In (lower name) (map (fun e => lower (fst e)) (contacts b)) ->
  let b' := print ("Contact " ++ quoted name ++ " not found!") b in
  edit_contact b name ph em ad = (false, b') /\
  delete_contact b name = (false, b') /\
  display_contact b name = (false, b') /\
  contacts b' = contacts b /\ file b' = file b.
Proof.
  intros H b'. unfold edit_contact, delete_contact, display_contact.
  rewrite find_key_none by exact H. repeat split.
Qed.

Lemma unknown_name_operations_witness :
  ~ In (lower "Zed") (map (fun e => lower (fst e)) (contacts carol_book)) /\
  delete_contact carol_book "Zed"
  = (false, print ("Contact " ++ quoted "Zed" ++ " not found!") carol_book).
Proof.
  assert (H : ~ In (lower "Zed") (map (fun e => lower (fst e)) (contacts carol_book))).
  { simpl. intros [E|[]]. discriminate. }
  split; [exact H|]. apply (unknown_name_operations carol_book "Zed" None None None H).
Defined.

Lemma nodup_map_inj {A B : Type} (f : A -> B) (l : list A) (x y : A) :
  NoDup (map f l) -> In x l -> In y l -> f x = f y -> x = y.
Proof.
  induction l as [|z r IH]; simpl; [tauto|]. intros H Hx Hy E.
  inversion H as [|w m Hw Hm]; subst.
  destruct Hx as [<-|Hx], Hy as [<-|Hy]; [reflexivity| | |auto].
  - exfalso. apply Hw. rewrite E. apply in_map. exact Hy.
  - exfalso. apply Hw. rewrite <- E. apply in_map. exact Hx.
Qed.

Lemma ci_unique_nodup_keys (cs : store) : ci_unique cs -> NoDup (map fst cs).
Proof.
  unfold ci_unique. induction cs as [|[k v] r IH]; simpl; intros H; [constructor|].
  inversion H as [|w m Hw Hm]; subst. constructor; [|auto].
  intros Hi. apply Hw. apply in_map_iff in Hi as [[k' v'] [E Hin]]. simpl in E. subst k'.
  apply in_map_iff. exists (k, v'). auto.
Qed.

(** Under case-insensitive uniqueness, the key a name resolves to is the
    one stored key with the same lowercase form. *)
Lemma find_key_unique (name k : string) (cs : store) :
  ci_unique cs -> In k (map fst cs) -> lower k = lower name -> find_key name cs = Some k.
Proof.
  intros U Hk E.
  destruct (find_key name cs) as [k'|] eqn:F.
  - apply find_key_spec in F as [E' Hk'].
    apply in_map_iff in Hk as [[k1 c1] [A1 B1]]. apply in_map_iff in Hk' as [[k2 c2] [A2 B2]].
    simpl in A1, A2. subst k1 k2.
    assert (X := nodup_map_inj (fun e => lower (fst e)) cs (k', c2) (k, c1) U B2 B1 ltac:(simpl; congruence)).
    injection X as X. subst. reflexivity.
  - apply find_key_none_iff in F. exfalso. apply F.
    apply in_map_iff in Hk as [[k1 c1] [A1 B1]]. simpl in A1. subst k1.
    apply in_map_iff. exists (k, c1). simpl. auto.
Qed.

Lemma dict_del_get_neq {V : Type} (k k' : string) (d : list (string * V)) :
  k' <> k -> dict_get k' (dict_del k d) = dict_get k' d.
Proof.
  intros Hne. induction d as [|[k0 v0] r IH]; simpl; [reflexivity|].
  destruct (String.eqb_spec k0 k) as [E|E].
  - subst k0. destruct (String.eqb_spec k k'); [congruence|reflexivity].
  - simpl. destruct (String.eqb k0 k'); [reflexivity|exact IH].
Qed.

Lemma dict_del_not_in {V : Type} (k : string) (d : list (string * V)) :
  NoDup (map fst d) -> ~ In k (map fst (dict_del k d)).
Proof.
  induction d as [|[k0 v0] r IH]; simpl; [tauto|]. intros H.
  inversion H as [|w m Hw Hm]; subst.
  destruct (String.eqb_spec k0 k) as [E|E]; [subst; exact Hw|].
  simpl. intros [Hi|Hi]; [congruence|]. exact (IH Hm Hi).
Qed.

(** Deleting a name that resolves, in a store whose keys are unique
    case-insensitively: [delete_contact] returns [True]; the resolved key
    [k] is gone and the name no longer resolves to any key; every other
    key keeps its record; and the file holds the new mapping. *)
Theorem delete_contact_removes (b : book) (name k : string) :
  ci_unique (contacts b) -> In k (map fst (contacts b)) -> lower k = lower name ->
  exists b', delete_contact b name = (true, b') /\
    contacts b' = dict_del k (contacts b) /\
    dict_get k (contacts b') = None /\
    find_key name (contacts b') = None /\
    (forall k', k' <> k -> dict_get k' (contacts b') = dict_get k' (contacts b)) /\
    file b' = Some (dump_store (contacts b')).
Proof.
  intros U Hk E. unfold delete_contact. rewrite (find_key_unique name k) by assumption.
  eexists. split; [reflexivity|]. simpl.
  assert (Nd := ci_unique_nodup_keys _ U).
  split; [reflexivity|].
  split; [apply dict_get_not_in_keys, dict_del_not_in; exact Nd|].
  split.
  - destruct (find_key name (dict_del k (contacts b))) as [k'|] eqn:F; [|reflexivity].
    apply find_key_spec in F as [E' Hk'].
    assert (Hin : In k' (map fst (contacts b))).
    { apply in_map_iff in Hk' as [x [Hx Hxin]]. apply in_map_iff. exists x.
      split; [exact Hx|]. apply dict_del_incl with k. exact Hxin. }
    exfalso. apply (dict_del_not_in k (contacts b) Nd).
    assert (k' = k).
    { pose proof (find_key_unique name k' (contacts b) U Hin E') as F1.
      pose proof (find_key_unique name k (contacts b) U Hk E) as F2. congruence. }
    subst k'. exact Hk'.
  - split; [intros k' Hne; apply dict_del_get_neq; exact Hne|reflexivity].
Qed.

Definition two_contacts : store :=
  [("Carol", contact0); ("Dave", mkContact "555 987 6543" "d@example.com" "Elm St." "2024-03-05 09:08:00")].

Lemma delete_contact_removes_witness :
  let b := mkBook two_contacts None [] in
  ci_unique (contacts b) /\ In "Carol" (map fst (contacts b)) /\ lower "Carol" = lower "cAROL" /\
  exists b', delete_contact b "cAROL" = (true, b') /\
    contacts b' = dict_del "Carol" (contacts b) /\
    dict_get "Carol" (contacts b') = None /\
    find_key "cAROL" (contacts b') = None /\
    (forall k', k' <> "Carol" -> dict_get k' (contacts b') = dict_get k' (contacts b)) /\
    file b' = Some (dump_store (contacts b')).
Proof.
  intros b.
  assert (U : ci_unique (contacts b)).
  { unfold ci_unique. simpl. repeat constructor; simpl; intuition discriminate. }
  assert (Hk : In "Carol" (map fst (contacts b))) by (simpl; tauto).
  assert (E : lower "Carol" = lower "cAROL") by reflexivity.
  split; [exact U|]. split; [exact Hk|]. split; [exact E|].
  apply (delete_contact_removes b "cAROL" "Carol" U Hk E).
Defined.

Lemma dict_del_app_new {V : Type} (k : string) (v : V) (d : list (string * V)) :
  ~ In k (map fst d) -> dict_del k (d ++ [(k, v)]) = d.
Proof.
  induction d as [|[k0 v0] r IH]; simpl; intros H.
  - rewrite String.eqb_refl. reflexivity.
  - destruct (String.eqb_spec k0 k); [tauto|]. rewrite IH by tauto. reflexivity.
Qed.

(** Adding a contact under a new name and then deleting that name gives
    back the mapping as it was before the add. *)
Theorem add_then_delete (now : datetime) (b : book) (name p e a : string) :
  ~ In (lower name) (map (fun x => lower (fst x)) (contacts b)) ->
  validate_phone p = true ->
  exists b1 b2, add_contact now b name p e a = (true, b1) /\
    delete_contact b1 name = (true, b2) /\
    contacts b2 = contacts b /\ file b2 = Some (dump_store (contacts b)).
Proof.
  intros Hn Hv.
  assert (Hk : ~ In name (map fst (contacts b))) by (apply not_in_lower_not_in_keys; exact Hn).
  unfold add_contact.
  destruct (existsb (String.eqb (lower name)) (map (fun x => lower (fst x)) (contacts b)))
    eqn:Ex; [apply existsb_lower_iff in Ex; contradiction|].
  rewrite Hv. simpl.
  rewrite dict_get_none_set by (apply dict_get_not_in_keys; exact Hk).
  eexists. eexists. split; [reflexivity|].
  unfold delete_contact. simpl. rewrite find_key_app_new by (reflexivity || exact Hn).
  split; [reflexivity|]. simpl. rewrite dict_del_app_new by exact Hk. split; reflexivity.
Qed.

Lemma add_then_delete_witness :
  ~ In (lower "Erin") (map (fun x => lower (fst x)) two_contacts) /\
  validate_phone "555-222-3333" = true /\
  exists b1 b2, add_contact (mkDatetime 2024 3 5 9 9 0) (mkBook two_contacts None []) "Erin"
                  "555-222-3333" "e@example.com" "" = (true, b1) /\
    delete_contact b1 "Erin" = (true, b2) /\
    contacts b2 = two_contacts /\ file b2 = Some (dump_store two_contacts).
Proof.
  assert (Hn : ~ In (lower "Erin") (map (fun x => lower (fst x)) two_contacts)).
  { simpl. intros [E|[E|[]]]; discriminate. }
  split; [exact Hn|]. split; [reflexivity|].
  apply (add_then_delete (mkDatetime 2024 3 5 9 9 0) (mkBook two_contacts None []) "Erin"
           "555-222-3333" "e@example.com" "" Hn). reflexivity.
Defined.

(** *** Output-only operations *)

(** [b'] differs from [b] only by printed lines appended to the log. *)
Definition prints_only (b b' : book) : Prop :=
  contacts b' = contacts b /\ file b' = file b /\
  exists msgs, log b' = log b ++ map Printed msgs.

Lemma print_all_eq (msgs : list string) (b : book) :
  print_all msgs b = mkBook (contacts b) (file b) (log b ++ map Printed msgs).
Proof.
  unfold print_all. revert b. induction msgs as [|m r IH]; intros [cs f l]; simpl.
  - rewrite app_nil_r. reflexivity.
  - rewrite IH. simpl. rewrite <- app_assoc. reflexivity.
Qed.

Lemma prints_only_print_all (msgs : list string) (b : book) : prints_only b (print_all msgs b).
Proof. rewrite print_all_eq. split; [reflexivity|]. split; [reflexivity|]. exists msgs. reflexivity. Qed.

Lemma prints_only_print (m : string) (b : book) : prints_only b (print m b).
Proof. split; [reflexivity|]. split; [reflexivity|]. exists [m]. reflexivity. Qed.

(** [display_contact] returns [True] exactly when some stored key equals
    [name] case-insensitively; whatever it returns, it and
    [list_all_contacts] only print: the mapping and the file are left as
    they were. *)
Theorem display_and_list_print_only (b : book) (name : string) :
  (fst (display_contact b name) = true <->
     In (lower name) (map (fun e => lower (fst e)) (contacts b))) /\
  prints_only b (snd (display_contact b name)) /\
  prints_only b (list_all_contacts b).
Proof.
  split; [|split].
  - unfold display_contact. destruct (find_key name (contacts b)) as [k|] eqn:F.
    + apply find_key_spec in F as [E Hk].
      destruct (dict_get k (contacts b)) eqn:G; [|exfalso; exact (dict_get_in_keys k _ Hk G)].
      simpl. split; [intros _|reflexivity].
      apply in_map_iff in Hk as [[k1 c1] [A1 B1]]. simpl in A1. subst k1.
      apply in_map_iff. exists (k, c1). simpl. auto.
    + apply find_key_none_iff in F. simpl. split; [discriminate|tauto].
  - unfold display_contact. destruct (find_key name (contacts b)) as [k|];
      [destruct (dict_get k (contacts b))|]; cbn [snd];
      first [apply prints_only_print_all | apply prints_only_print
            | split; [reflexivity|]; split; [reflexivity|]; exists []; rewrite app_nil_r; reflexivity].
  - unfold list_all_contacts. destruct (contacts b);
      [apply prints_only_print|apply prints_only_print_all].
Qed.

(** *** The file format *)

Lemma all_ascii_app (a b : string) : all_ascii (a ++ b) = all_ascii a && all_ascii b.
Proof. induction a as [|c a IH]; simpl; [reflexivity|]. rewrite IH. apply andb_assoc. Qed.

Lemma all_ascii_enc_char (c : ascii) : all_ascii (enc_char c) = true.
Proof. destruct c as [[] [] [] [] [] [] [] []]; reflexivity. Qed.

Lemma all_ascii_enc_body (s : string) : all_ascii (enc_body s) = true.
Proof.
  induction s as [|c s IH]; [reflexivity|].
  change (enc_body (String c s)) with (enc_char c ++ enc_body s)%string.
  rewrite all_ascii_app, all_ascii_enc_char, IH. reflexivity.
Qed.

Lemma all_ascii_encode_str (s : string) : all_ascii (encode_str s) = true.
Proof.
  unfold encode_str. change (all_ascii (String dq (enc_body s ++ String dq EmptyString)))
    with (all_ascii (enc_body s ++ String dq EmptyString)).
  rewrite all_ascii_app, all_ascii_enc_body. reflexivity.
Qed.

Lemma all_ascii_spaces (n : nat) : all_ascii (spaces n) = true.
Proof. induction n as [|n IH]; simpl; [reflexivity|]. exact IH. Qed.

Lemma all_ascii_nli (n : nat) : all_ascii (nli n) = true.
Proof. unfold nli. apply all_ascii_spaces. Qed.

Lemma all_ascii_dump_contact (c : contact) : all_ascii (dump_contact c) = true.
Proof.
  unfold dump_contact. rewrite !all_ascii_app, !all_ascii_encode_str, !all_ascii_nli.
  reflexivity.
Qed.

Lemma all_ascii_dump_entries (s : store) : all_ascii (dump_entries s) = true.
Proof.
  induction s as [|e [|e' r] IH]; [reflexivity| |].
  - change (dump_entries [e]) with (dump_entry e).
    unfold dump_entry. rewrite !all_ascii_app, all_ascii_encode_str, all_ascii_dump_contact.
    reflexivity.
  - change (dump_entries (e :: e' :: r)) with (dump_entry e ++ "," ++ nli 1 ++ dump_entries (e' :: r))%string.
    unfold dump_entry. rewrite !all_ascii_app, all_ascii_encode_str, all_ascii_dump_contact, all_ascii_nli, IH.
    reflexivity.
Qed.

(** [json.dump] escapes every character outside ASCII ([ensure_ascii]):
    the text [save_contacts] writes consists of ASCII characters only,
    whatever the names and fields hold. *)
Theorem save_contacts_ascii (b : book) :
  exists text, file (save_contacts b) = Some text /\ all_ascii text = true.
Proof.
  eexists. split; [reflexivity|]. unfold dump_store. destruct (contacts b); [reflexivity|].
  rewrite !all_ascii_app, all_ascii_nli, all_ascii_dump_entries. reflexivity.
Qed.

Lemma dump_tail_app (r : store) (X : string) :
  (dump_tail r EmptyString ++ X)%string = dump_tail r X.
Proof.
  induction r as [|e r IH]; simpl.
  - reflexivity.
  - unfold dump_entry. rewrite !str_app_assoc, IH. reflexivity.
Qed.

Lemma str_cons_app (c : ascii) (a b : string) :
  (String c a ++ b)%string = String c (a ++ b).
Proof. reflexivity. Qed.

Lemma dump_store_cons_app (k : string) (c : contact) (r : store) (X : string) :
  (dump_store ((k, c) :: r) ++ X)%string =
  String "{" (nli 1 ++ String dq ((enc_body k ++ String dq EmptyString) ++
                                  ": " ++ dump_contact c ++ dump_tail r X)).
Proof.
  rewrite dump_store_cons, <- (dump_tail_app r X).
  remember (dump_contact c) as D. remember (dump_tail r EmptyString) as T.
  simpl. repeat first [rewrite str_app_assoc | rewrite str_cons_app]. reflexivity.
Qed.

Lemma json_loads_dump_store_app (s : store) (max_depth : nat) (X : string) :
  NoDup (map fst s) -> 2 <= max_depth ->
  json_loads max_depth (dump_store s ++ X) =
  match skip_ws X with EmptyString => DOk (json_of_store s) | _ => DErr end.
Proof.
  intros Hnd Hd. destruct max_depth as [|[|dp]]; [lia|lia|].
  unfold json_loads. destruct s as [|[k c] r].
  - remember (2 * String.length ("{}" ++ X) + 2) as F eqn:HF.
    destruct F as [|F]; [lia|]. reflexivity.
  - rewrite dump_store_cons_app.
    remember (dump_contact c) as D.
    remember (2 * String.length (String "{" (nli 1 ++ String dq ((enc_body k ++ String dq EmptyString)
                ++ ": " ++ D ++ dump_tail r X))) + 2) as F eqn:HF.
    assert (HF' : String.length (dump_tail r X) + 9 <= F).
    { subst F. simpl. rewrite !str_app_assoc, !str_length_app. simpl.
      rewrite !str_length_app. lia. }
    clear HF. destruct F as [|F]; [lia|]. simpl.
    assert (HP := pmembers_entries r dp k c [] F X ltac:(lia)).
    rewrite <- HeqD in HP. simpl in HP. rewrite HP. simpl.
    rewrite dict_of_pairs_nodup; [reflexivity|].
    unfold entry_json. simpl. rewrite map_map. exact Hnd.
Qed.

(** Text after a saved mapping: if it is only whitespace (a trailing
    newline, say), [load_contacts] still returns the saved mapping with
    no notice; if it holds anything else, the whole file is rejected
    with the notice and the empty mapping. The trailing text is never
    scanned as a value, so only the two levels of nesting of the saved
    mapping count against the recursion budget. *)
Theorem load_saved_file_with_trailing_text (b : book) (max_depth : nat) (X : string) :
  NoDup (map fst (contacts b)) -> 2 <= max_depth ->
  forall text, file (save_contacts b) = Some text ->
  (skip_ws X = EmptyString ->
     load_contacts max_depth (Some (text ++ X)%string) = (Some (json_of_store (contacts b)), [])) /\
  (skip_ws X <> EmptyString ->
     load_contacts max_depth (Some (text ++ X)%string) = (Some (JObj []), [Printed load_notice])).
Proof.
  intros Hnd Hd text Ht. injection Ht as <-. unfold load_contacts.
  rewrite json_loads_dump_store_app by assumption.
  split; intros H; [rewrite H; reflexivity|]. destruct (skip_ws X); [congruence|reflexivity].
Qed.

Lemma load_saved_file_with_trailing_text_witness :
  let b := mkBook two_contacts None [] in
  NoDup (map fst (contacts b)) /\ 2 <= sample_depth /\
  load_contacts sample_depth (Some (dump_store two_contacts ++ String nl EmptyString)%string)
    = (Some (json_of_store two_contacts), []) /\
  load_contacts sample_depth (Some (dump_store two_contacts ++ "x")%string)
    = (Some (JObj []), [Printed load_notice]).
Proof.
  intros b.
  assert (H : NoDup (map fst (contacts b))) by (simpl; repeat constructor; simpl; intuition discriminate).
  assert (Hd : 2 <= sample_depth) by (unfold sample_depth; lia).
  split; [exact H|]. split; [exact Hd|].
  destruct (load_saved_file_with_trailing_text b sample_depth (String nl EmptyString) H Hd
              (dump_store two_contacts) eq_refl) as [H1 _].
  destruct (load_saved_file_with_trailing_text b sample_depth "x" H Hd
              (dump_store two_contacts) eq_refl) as [_ H2].
  split; [apply H1; reflexivity|]. apply H2. discriminate.
Defined.

(** *** Starting the program: [ContactBook(filename)] *)

(** A new [ContactBook] on a file that [save_contacts] wrote for a
    mapping (with distinct keys) starts with exactly that mapping, keys,
    order and fields included, and prints nothing, provided the
    recursion budget of [json.load] allows the file's two levels of
    nesting. *)
Theorem init_book_after_save (b : book) (max_depth : nat) :
  NoDup (map fst (contacts b)) -> 2 <= max_depth ->
  init_book max_depth (file (save_contacts b)) =
  Some (mkBook (contacts b) (file (save_contacts b)) []).
Proof.
  intros H Hd. unfold init_book. cbn [file save_contacts]. unfold load_contacts.
  rewrite json_loads_dump_store by assumption. cbv beta iota.
  rewrite store_of_json_of_store. reflexivity.
Qed.

Lemma init_book_after_save_witness :
  NoDup (map fst two_contacts) /\ 2 <= sample_depth /\
  init_book sample_depth (file (save_contacts (mkBook two_contacts None []))) =
  Some (mkBook two_contacts (Some (dump_store two_contacts)) []).
Proof.
  assert (H : NoDup (map fst (contacts (mkBook two_contacts None [])))).
  { simpl. repeat constructor; simpl; intuition discriminate. }
  assert (Hd : 2 <= sample_depth) by (unfold sample_depth; lia).
  split; [exact H|]. split; [exact Hd|].
  apply (init_book_after_save (mkBook two_contacts None []) sample_depth H Hd).
Defined.

(** *** The interactive session *)

Section SessionInvariant.

Variable P : book -> Prop.
Hypothesis P_print : forall m b, P b -> P (print m b).
Hypothesis P_print_all : forall msgs b, P b -> P (print_all msgs b).
Hypothesis P_add : forall now b n p e a, P b -> P (snd (add_contact now b n p e a)).
Hypothesis P_edit : forall b n p e a, P b -> P (snd (edit_contact b n p e a)).
Hypothesis P_delete : forall b n, P b -> P (snd (delete_contact b n)).
Hypothesis P_display : forall b n, P b -> P (snd (display_contact b n)).
Hypothesis P_list : forall b, P b -> P (list_all_contacts b).

Lemma main_loop_invariant : forall inputs clock t b,
  P b -> P (session_book (main_loop clock t b inputs)).
Proof.
  fix IH 1. intros inputs clock t b H.
  assert (H0 : P (display_menu b)) by (apply P_print_all; exact H).
  destruct inputs as [|line ins]; [exact H0|].
  cbn [main_loop].
  destruct (String.eqb (strip line) "1").
  { destruct ins as [|n [|p [|e [|a rest]]]]; try exact H0. apply IH, P_add, H0. }
  destruct (String.eqb (strip line) "2").
  { destruct ins as [|q rest]; [exact H0|]. apply IH, P_print_all, H0. }
  destruct (String.eqb (strip line) "3").
  { destruct ins as [|n [|p [|e [|a rest]]]]; try exact H0; try (apply P_print, H0).
    apply IH, P_edit, P_print, H0. }
  destruct (String.eqb (strip line) "4").
  { destruct ins as [|n [|c rest]]; try exact H0. apply IH.
    destruct (String.eqb (lower (strip c)) "yes"); [apply P_delete, H0|apply P_print, H0]. }
  destruct (String.eqb (strip line) "5").
  { destruct ins as [|n rest]; [exact H0|]. apply IH, P_display, H0. }
  destruct (String.eqb (strip line) "6"); [apply IH, P_list, H0|].
  destruct (String.eqb (strip line) "7"); [apply P_print, H0|].
  apply IH, P_print, H0.
Qed.

End SessionInvariant.

Lemma display_contact_data (b : book) (name : string) :
  contacts (snd (display_contact b name)) = contacts b /\ file (snd (display_contact b name)) = file b.
Proof.
  unfold display_contact. destruct (find_key name (contacts b)) as [k|];
    [destruct (dict_get k (contacts b))|]; cbn [snd]; try rewrite print_all_eq; split; reflexivity.
Qed.

Lemma list_all_contacts_data (b : book) :
  contacts (list_all_contacts b) = contacts b /\ file (list_all_contacts b) = file b.
Proof.
  unfold list_all_contacts. destruct (contacts b) eqn:C; try rewrite print_all_eq;
    simpl; split; first [exact C | reflexivity].
Qed.

(** Whatever lines are typed, a session of [main] that starts from a
    mapping with no two keys equal case-insensitively keeps that
    property, up to the moment it ends by choice 7 or at the end of the
    input. *)
Theorem main_loop_ci_unique (clock : nat -> datetime) (t : nat) (b : book) (inputs : list string) :
  ci_unique (contacts b) -> ci_unique (contacts (session_book (main_loop clock t b inputs))).
Proof.
  apply (main_loop_invariant (fun b => ci_unique (contacts b))).
  - intros m b' H. exact H.
  - intros msgs b' H. rewrite contacts_print_all. exact H.
  - intros now b' n p e a H. apply add_contact_ci_unique. exact H.
  - intros b' n p e a H. apply ci_unique_same_keys with (contacts b'); [apply edit_contact_keys|exact H].
  - intros b' n H. unfold delete_contact. destruct (find_key n (contacts b')); simpl; [|exact H].
    apply ci_unique_del. exact H.
  - intros b' n H. rewrite (proj1 (display_contact_data b' n)). exact H.
  - intros b' H. rewrite (proj1 (list_all_contacts_data b')). exact H.
Qed.

Definition clock0 (_ : nat) : datetime := mkDatetime 2024 3 5 9 7 1.

Lemma main_loop_ci_unique_witness :
  ci_unique two_contacts /\
  ci_unique (contacts (session_book (main_loop clock0 0 (mkBook two_contacts None [])
     ["1"; "carol"; "5550001111"; ""; ""; "1"; "Erin"; "555-000-2222"; ""; "";
      "3"; "ERIN"; "555-000-3333"; ""; ""; "7"]))).
Proof.
  assert (H : ci_unique (contacts (mkBook two_contacts None []))).
  { unfold ci_unique. simpl. repeat constructor; simpl; intuition discriminate. }
  split; [exact H|]. apply (main_loop_ci_unique clock0 0 (mkBook two_contacts None [])). exact H.
Defined.

(** [b'] is [b] with the same mapping and file, or its file holds the
    dump of its mapping. *)
Definition kept_or_saved (b b' : book) : Prop :=
  (contacts b' = contacts b /\ file b' = file b) \/ file b' = Some (dump_store (contacts b')).

Lemma add_contact_kept_or_saved (now : datetime) (b : book) (n p e a : string) :
  kept_or_saved b (snd (add_contact now b n p e a)).
Proof.
  unfold kept_or_saved, add_contact.
  destruct (existsb (String.eqb (lower n)) (map (fun x => lower (fst x)) (contacts b)));
    [left; split; reflexivity|].
  destruct (negb (validate_phone p)); [left; split; reflexivity|right; reflexivity].
Qed.

Lemma edit_contact_kept_or_saved (b : book) (n : string) (ph em ad : option string) :
  kept_or_saved b (snd (edit_contact b n ph em ad)).
Proof.
  unfold kept_or_saved, edit_contact. destruct (find_key n (contacts b)) as [k|];
    [|left; split; reflexivity].
  destruct ph as [p|]; try destruct (truthy (Some p));
    try destruct (negb (validate_phone p)); cbn [snd];
    first [left; split; reflexivity | right; reflexivity].
Qed.

Lemma delete_contact_kept_or_saved (b : book) (n : string) :
  kept_or_saved b (snd (delete_contact b n)).
Proof.
  unfold kept_or_saved, delete_contact. destruct (find_key n (contacts b));
    [right; reflexivity|left; split; reflexivity].
Qed.

(** The backing file never lags behind the mapping: when a session of
    [main] ends, by choice 7 or because the input ran out at any point,
    either the mapping and the file are those it started with, or the
    file holds the dump of the final mapping. *)
Theorem main_loop_file_in_sync (clock : nat -> datetime) (t : nat) (b : book)
    (inputs : list string) :
  kept_or_saved b (session_book (main_loop clock t b inputs)).
Proof.
  apply (main_loop_invariant (kept_or_saved b)); [| | | | | | |left; split; reflexivity].
  - intros m b' [[E1 E2]|E]; [left; split; assumption|right; exact E].
  - intros msgs b' H. rewrite print_all_eq. exact H.
  - intros now b' n p e a H. destruct (add_contact_kept_or_saved now b' n p e a) as [[E1 E2]|E];
      [|right; exact E]. destruct H as [[F1 F2]|F]; [left; split; congruence|right; congruence].
  - intros b' n p e a H. destruct (edit_contact_kept_or_saved b' n p e a) as [[E1 E2]|E];
      [|right; exact E]. destruct H as [[F1 F2]|F]; [left; split; congruence|right; congruence].
  - intros b' n H. destruct (delete_contact_kept_or_saved b' n) as [[E1 E2]|E];
      [|right; exact E]. destruct H as [[F1 F2]|F]; [left; split; congruence|right; congruence].
  - intros b' n H. destruct (display_contact_data b' n) as [E1 E2].
    destruct H as [[F1 F2]|F]; [left; split; congruence|right; congruence].
  - intros b' H. destruct (list_all_contacts_data b') as [E1 E2].
    destruct H as [[F1 F2]|F]; [left; split; congruence|right; congruence].
Qed.

(** Choice 3 with the phone, email and address answers all blank (or
    whitespace only) on a name that resolves: the contact is left as it
    was, yet the mapping is written to the file again and the edit is
    reported as a success. *)
Theorem main_loop_edit_blank (clock : nat -> datetime) (t : nat) (b : book)
    (l n p e a : string) (rest : list string) :
  strip l = "3" -> strip p = EmptyString -> strip e = EmptyString -> strip a = EmptyString ->
  In (lower (strip n)) (map (fun x => lower (fst x)) (contacts b)) ->
  exists k b1, find_key (strip n) (contacts b) = Some k /\
    main_loop clock t b (l :: n :: p :: e :: a :: rest) = main_loop clock (S t) b1 rest /\
    contacts b1 = contacts b /\ file b1 = Some (dump_store (contacts b)) /\
    last (log b1) (Printed EmptyString) = Printed ("Contact " ++ quoted k ++ " updated successfully!").
Proof.
  intros Hl Hp He Ha Hn.
  destruct (find_key_complete (strip n) (contacts b) Hn) as [k Hk].
  exists k. eexists. split; [exact Hk|]. split.
  - cbn [main_loop]. rewrite Hl. cbn [String.eqb Ascii.eqb Bool.eqb].
    unfold or_none. rewrite Hp, He, Ha. reflexivity.
  - unfold edit_contact. cbn [contacts print].
    unfold display_menu. rewrite contacts_print_all, Hk. cbn [print save_contacts set_contacts contacts file log].
    cbn [String.eqb Ascii.eqb Bool.eqb truthy negb].
    cbn [print save_contacts set_contacts contacts file log snd].
    try rewrite !contacts_print_all.
    split; [reflexivity|]. split; [reflexivity|].
    apply last_last.
Qed.

Lemma main_loop_edit_blank_witness :
  let b := mkBook two_contacts None [] in
  strip "3" = "3" /\ strip " " = EmptyString /\ strip EmptyString = EmptyString /\
  In (lower (strip "dave")) (map (fun x => lower (fst x)) (contacts b)) /\
  exists k b1, find_key (strip "dave") (contacts b) = Some k /\
    main_loop clock0 0 b ["3"; "dave"; " "; EmptyString; EmptyString; "7"] = main_loop clock0 1 b1 ["7"] /\
    contacts b1 = contacts b /\ file b1 = Some (dump_store (contacts b)) /\
    last (log b1) (Printed EmptyString) = Printed ("Contact " ++ quoted k ++ " updated successfully!").
Proof.
  intros b.
  assert (H3 : strip "3" = "3") by reflexivity.
  assert (Hs : strip " " = EmptyString) by reflexivity.
  assert (He : strip EmptyString = EmptyString) by reflexivity.
  assert (Hn : In (lower (strip "dave")) (map (fun x => lower (fst x)) (contacts b))) by (simpl; tauto).
  split; [exact H3|]. split; [exact Hs|]. split; [exact He|]. split; [exact Hn|].
  apply (main_loop_edit_blank clock0 0 b "3" "dave" " " EmptyString EmptyString ["7"] H3 Hs He He Hn).
Defined.
